(** * gPodder youtube-dl extension: feed filtering, sync, progress and download

    A shallow embedding of [share/gpodder/extensions/youtube-dl.py].
    Python dictionaries with a fixed set of keys are records whose fields are
    options ([None] = key absent), Python sets of strings are [gset string],
    the file system is a [gmap] from paths to nodes, and a raised exception is
    the [Raise] constructor of [result].  The youtube-dl backend, the host
    helpers from [gpodder.util] / [gpodder.youtube] and the local time zone
    are section variables. *)

From Stdlib Require Import Strings.Ascii.
From stdpp Require Import gmap strings list fin_maps.

Open Scope Z_scope.

(** ** Exceptions and results *)

Inductive exn :=
  | KeyError (key : string)
  | ValueError (msg : string)
  | UnsupportedResultType (result_type : string)
  | DownloadError (msg : string)
  | OSError (path : string).

Inductive result (A : Type) :=
  | Ok (a : A)
  | Raise (e : exn).
Arguments Ok {A} a.
Arguments Raise {A} e.

#[global] Instance result_ret : MRet result := λ A a, Ok a.
#[global] Instance result_bind : MBind result := λ A B k r,
  match r with
  | Ok a => k a
  | Raise e => Raise e
  end.

(** [d[key]] on a dictionary modelled as a record of options. *)
Definition getitem {A} (key : string) (o : option A) : result A :=
  match o with
  | Some a => Ok a
  | None => Raise (KeyError key)
  end.

(** Python truthiness of an optional integer / string ([None], [0] and the
    empty string are falsy), and the [a or b] idiom on them. *)
Definition truthyZ (o : option Z) : option Z :=
  match o with
  | Some z => if z =? 0 then None else Some z
  | None => None
  end.

Definition truthyS (o : option string) : option string :=
  match o with
  | Some "" => None
  | o => o
  end.

Definition or_else {A} (o : option A) (d : A) : A :=
  match o with Some a => a | None => d end.

(** ** Backend dictionaries *)

(** One element of ['requested_formats']. *)
Record format := Format {
  f_format_id : option string;
  f_filesize : option Z;
}.

(** An entry of a listing (an [ie_result] of youtube-dl). *)
Record entry := Entry {
  e_type : option string;          (* '_type' *)
  e_ie_key : option string;        (* 'ie_key' *)
  e_id : option string;            (* 'id' *)
  e_guid : option string;          (* 'guid', added by _process_entries *)
  e_title : option string;
  e_url : option string;
  e_webpage_url : option string;
  e_description : option string;
  e_thumbnail : option string;
  e_upload_date : option string;
  e_duration : option Z;
  e_filesize : option Z;
  e_ext : option string;
  e_requested_formats : option (list format);
}.

(** [e['guid'] = guid] *)
Definition set_guid (e : entry) (guid : string) : entry :=
  {| e_type := e_type e; e_ie_key := e_ie_key e; e_id := e_id e;
     e_guid := Some guid; e_title := e_title e; e_url := e_url e;
     e_webpage_url := e_webpage_url e; e_description := e_description e;
     e_thumbnail := e_thumbnail e; e_upload_date := e_upload_date e;
     e_duration := e_duration e; e_filesize := e_filesize e;
     e_ext := e_ext e; e_requested_formats := e_requested_formats e |}.

(** The top of an extraction result: what [extract_info] returns. *)
Record extraction := IeResult {
  ie_type : option string;         (* '_type' *)
  ie_id : option string;
  ie_title : option string;
  ie_url : option string;
  ie_ie_key : option string;
  ie_webpage_url : option string;
  ie_entries : option (list entry);
}.

Definition set_entries (r : extraction) (es : list entry) : extraction :=
  {| ie_type := ie_type r; ie_id := ie_id r; ie_title := ie_title r;
     ie_url := ie_url r; ie_ie_key := ie_ie_key r;
     ie_webpage_url := ie_webpage_url r; ie_entries := Some es |}.

Definition set_url (r : extraction) (u : string) : extraction :=
  {| ie_type := ie_type r; ie_id := ie_id r; ie_title := ie_title r;
     ie_url := Some u; ie_ie_key := ie_ie_key r;
     ie_webpage_url := ie_webpage_url r; ie_entries := ie_entries r |}.

(** Two entries as the flat listing of a channel holds them: a video, and a
    link to a playlist. *)
Definition url_entry (ie_key id : string) : entry :=
  {| e_type := Some "url"; e_ie_key := Some ie_key; e_id := Some id;
     e_guid := None; e_title := None; e_url := None; e_webpage_url := None;
     e_description := None; e_thumbnail := None; e_upload_date := None;
     e_duration := None; e_filesize := None; e_ext := None;
     e_requested_formats := None |}.
Definition video_entry (id : string) : entry := url_entry "Youtube" id.
Definition playlist_link (id : string) : entry := url_entry "YoutubePlaylist" id.

(** ** Identifier utility *)

(** ['yt:video:{}'.format(video_id)] *)
Definition video_guid (video_id : string) : string := "yt:video:" +:+ video_id.
Arguments video_guid : simpl never.

(** ** YoutubeFeed._process_entries *)

(** The input of [_process_entries] is a generator.  Its state is the list of
    the elements it has not produced yet; the [for] loop pulls one element per
    iteration and [break] leaves the rest unread.  The function returns the
    filtered entries together with the final state of the generator. *)

(** [e.get('_type', 'video') == 'url' and e.get('ie_key') == 'Youtube'] *)
Definition is_youtube_url (e : entry) : bool :=
  bool_decide (or_else (e_type e) "video" = "url")
  && bool_decide (e_ie_key e = Some "Youtube").

(** The body of the [for] loop up to the test of the cap: the new values of
    [filtered_entries] and [seen_guids]. *)
Definition process_entry (e : entry) (filtered_entries : list entry)
    (seen_guids : gset string) : result (list entry * gset string) :=
  if is_youtube_url e then
    id ← getitem "id" (e_id e);
    let guid := video_guid id in
    let e := set_guid e guid in
    if bool_decide (guid ∈ seen_guids) then Ok (filtered_entries, seen_guids)
    else Ok (filtered_entries ++ [e], seen_guids ∪ {[guid]})
  else Ok (filtered_entries, seen_guids).

Fixpoint process_loop (max_episodes : Z) (entries : list entry)
    (filtered_entries : list entry) (seen_guids : gset string)
    : result (list entry) * list entry :=
  match entries with
  | [] => (Ok filtered_entries, [])
  | e :: entries =>
      match process_entry e filtered_entries seen_guids with
      | Raise x => (Raise x, entries)
      | Ok (filtered_entries, seen_guids) =>
          if Z.of_nat (length filtered_entries) =? max_episodes
          then (Ok filtered_entries, entries)
          else process_loop max_episodes entries filtered_entries seen_guids
      end
  end.

Definition _process_entries (max_episodes : Z) (entries : list entry)
    : result (list entry) * list entry :=
  process_loop max_episodes entries [] ∅.

(** The same loop read declaratively: an entry of the consumed input is kept
    exactly when it derives a GUID (it passes the type test and has an id)
    that no earlier input entry derives. *)
Definition derived_guid (e : entry) : option string :=
  if is_youtube_url e then video_guid <$> e_id e else None.


Fixpoint first_occurrences_from (earlier : list entry) (entries : list entry)
    : list entry :=
  match entries with
  | [] => []
  | e :: entries =>
      match derived_guid e with
      | Some guid =>
          if bool_decide (Some guid ∈ derived_guid <$> earlier) then []
          else [set_guid e guid]
      | None => []
      end ++ first_occurrences_from (earlier ++ [e]) entries
  end.

Definition first_occurrences (entries : list entry) : list entry :=
  first_occurrences_from [] entries.

(** The state of the loop after it has read [pre] without stopping: the
    entries kept are the first occurrences in [pre], and the guids seen are
    those that the entries of [pre] derive. *)
Definition loop_inv (pre filtered : list entry) (seen : gset string) : Prop :=
  filtered = first_occurrences pre
  ∧ ∀ guid, guid ∈ seen ↔ Some guid ∈ derived_guid <$> pre.

(** ** Date utility *)

(** *** [time.strptime(s, "%Y%m%d")]

    CPython compiles the format to the regular expression
    [(?P<Y>\d\d\d\d)(?P<m>1[0-2]|0[1-9]|[1-9])(?P<d>3[0-1]|[1-2]\d|0[1-9]|[1-9]| [1-9])],
    matches it at the start of the string, rejects unconverted trailing data
    and checks the date with [datetime.date].  Characters are 8-bit codes, for
    which [\d] is the class of the ten ASCII digits. *)

Record struct_time := StructTime {
  tm_year : Z; tm_mon : Z; tm_mday : Z;
  tm_hour : Z; tm_min : Z; tm_sec : Z;
  tm_wday : Z; tm_yday : Z; tm_isdst : Z;
}.

Definition digit_value (c : ascii) : option Z :=
  let n := Z.of_nat (nat_of_ascii c) in
  if (48 <=? n) && (n <=? 57) then Some (n - 48) else None.

Definition digit_char (v : Z) : ascii := ascii_of_nat (Z.to_nat (v + 48)).

(** A character of the class [[lo-hi]]. *)
Definition digit_in (lo hi : Z) (c : ascii) : option Z :=
  v ← digit_value c; if (lo <=? v) && (v <=? hi) then Some v else None.

(** [\d\d\d\d] *)
Definition re_Y (s : string) : option (Z * string) :=
  match s with
  | String a (String b (String c (String d rest))) =>
      a ← digit_value a; b ← digit_value b;
      c ← digit_value c; d ← digit_value d;
      Some (1000 * a + 100 * b + 10 * c + d, rest)
  | _ => None
  end.

(** One alternative made of two character classes, the first contributing
    [10 * v] to the value (or nothing when it is a space). *)
Definition re_two (lo1 hi1 lo2 hi2 : Z) (s : string) : list (Z * string) :=
  match s with
  | String a (String b rest) =>
      match digit_in lo1 hi1 a, digit_in lo2 hi2 b with
      | Some v1, Some v2 => [(10 * v1 + v2, rest)]
      | _, _ => []
      end
  | _ => []
  end.

Definition re_one (lo hi : Z) (s : string) : list (Z * string) :=
  match s with
  | String a rest =>
      match digit_in lo hi a with
      | Some v => [(v, rest)]
      | None => []
      end
  | _ => []
  end.

Definition re_space_one (lo hi : Z) (s : string) : list (Z * string) :=
  match s with
  | String a rest =>
      if bool_decide (a = " "%char) then re_one lo hi rest else []
  | _ => []
  end.

(** [1[0-2]|0[1-9]|[1-9]]: the matches, in the order the regex engine tries
    them. *)
Definition re_m (s : string) : list (Z * string) :=
  re_two 1 1 0 2 s ++ re_two 0 0 1 9 s ++ re_one 1 9 s.

(** [3[0-1]|[1-2]\d|0[1-9]|[1-9]| [1-9]] *)
Definition re_d (s : string) : list (Z * string) :=
  re_two 3 3 0 1 s ++ re_two 1 2 0 9 s ++ re_two 0 0 1 9 s
  ++ re_one 1 9 s ++ re_space_one 1 9 s.

(** The month and the day after the year: the first match in backtracking
    order, with the unmatched rest of the string. *)
Definition re_md (s : string) : option (Z * Z * string) :=
  head ('(m, r1) ← re_m s; '(d, r2) ← re_d r1; [(m, d, r2)]).

(** [format_regex.match(data_string)] *)
Definition re_Ymd (s : string) : option (Z * Z * Z * string) :=
  '(y, r) ← re_Y s; '(m, d, r2) ← re_md r; Some (y, m, d, r2).

(** [datetime.date]: proleptic Gregorian calendar, years 1 to 9999. *)
Definition is_leap (y : Z) : bool :=
  (y mod 4 =? 0) && (negb (y mod 100 =? 0) || (y mod 400 =? 0)).

Definition days_in_month (y m : Z) : Z :=
  if m =? 2 then (if is_leap y then 29 else 28)
  else if (m =? 4) || (m =? 6) || (m =? 9) || (m =? 11) then 30
  else 31.

Definition valid_date (y m d : Z) : bool :=
  (1 <=? y) && (y <=? 9999) && (1 <=? m) && (m <=? 12)
  && (1 <=? d) && (d <=? days_in_month y m).

Definition days_before_year (y : Z) : Z :=
  (y - 1) * 365 + (y - 1) / 4 - (y - 1) / 100 + (y - 1) / 400.

Definition days_before_month (y m : Z) : Z :=
  or_else ([0; 31; 59; 90; 120; 151; 181; 212; 243; 273; 304; 334]
             !! Z.to_nat (m - 1)) 0
  + (if (2 <? m) && is_leap y then 1 else 0).

Definition toordinal (y m d : Z) : Z :=
  days_before_year y + days_before_month y m + d.

(** The [struct_time] of midnight on a date, as [_strptime] fills it. *)
Definition midnight (y m d : Z) : struct_time :=
  {| tm_year := y; tm_mon := m; tm_mday := d;
     tm_hour := 0; tm_min := 0; tm_sec := 0;
     tm_wday := (toordinal y m d + 6) mod 7;
     tm_yday := toordinal y m d - toordinal y 1 1 + 1;
     tm_isdst := -1 |}.

Definition strptime_Ymd (s : string) : result struct_time :=
  match re_Ymd s with
  | None => Raise (ValueError "time data does not match format")
  | Some (y, m, d, rest) =>
      if bool_decide (rest = "") then
        if valid_date y m d then Ok (midnight y m d)
        else Raise (ValueError "date out of range")
      else Raise (ValueError "unconverted data remains")
  end.

(** [time.mktime] of the zone UTC; the zone of the process is a parameter of
    [youtube_parsedate] below. *)
Definition mktime_utc (t : struct_time) : Z :=
  (toordinal (tm_year t) (tm_mon t) (tm_mday t) - 719163) * 86400
  + tm_hour t * 3600 + tm_min t * 60 + tm_sec t.

(** Decimal renderings: [fmt4] and [fmt2] pad with zeros ([%04d], [%02d]),
    [fmt1] is a single digit.  [format_Ymd] is [strftime("%Y%m%d")]. *)
Definition fmt1 (v : Z) : string := String (digit_char v) "".
Definition fmt2 (v : Z) : string :=
  String (digit_char (v / 10)) (String (digit_char (v mod 10)) "").
Definition fmt4 (v : Z) : string :=
  String (digit_char (v / 1000))
    (String (digit_char (v / 100 mod 10))
       (String (digit_char (v / 10 mod 10))
          (String (digit_char (v mod 10)) ""))).
Definition format_Ymd (y m d : Z) : string := fmt4 y +:+ fmt2 m +:+ fmt2 d.

(** The ways of writing a month and a day that the regular expression
    admits: the leading zero may be left out, and for the day it may be a
    space. *)
Definition month_forms (m : Z) : list string :=
  fmt2 m :: (if m <? 10 then [fmt1 m] else []).
Definition day_forms (d : Z) : list string :=
  fmt2 d :: (if d <? 10 then [fmt1 d; " " +:+ fmt1 d] else []).

(** The month and the day that are read in a month [m] and a day [d] written
    as [ms] and [ds]: the regular expression gives the month two digits
    whenever the string allows it with a day left over, so that January
    written [1] before a day written [0x], [1x] or [2x], [x] not zero, is
    read as the month 10, 11 or 12 and the day [x].  Every other writing is
    read as the date it spells. *)
Definition first_match (m d : Z) (ms ds : string) : Z * Z :=
  if bool_decide (ms = fmt1 1) && bool_decide (ds = fmt2 d)
     && (d <? 30) && negb (d mod 10 =? 0)
  then (10 + d / 10, d mod 10)
  else (m, d).

(** The format as the specification words it: a date written with eight
    digits, [YYYYMMDD]. *)
Fixpoint all_digits (s : string) : bool :=
  match s with
  | EmptyString => true
  | String c s => bool_decide (is_Some (digit_value c)) && all_digits s
  end.
Definition is_YYYYMMDD (s : string) : bool :=
  bool_decide (String.length s = 8%nat) && all_digits s.

Section parsedate.
(** [time.mktime]: the timestamp of a broken-down local time.  Python
    returns it as a float with an integral value. *)
Variable mktime : struct_time → Z.

Definition youtube_parsedate (s : option string) : result Z :=
  match truthyS s with
  | Some s => t ← strptime_Ymd s; Ok (mktime t)
  | None => Ok 0
  end.
End parsedate.

(** ** Progress adapter: YoutubeCustomDownload._my_hook *)

(** A progress event of the backend (the dictionary [d]). *)
Record hook_event := HookEvent {
  d_status : option string;
  d_downloaded_bytes : option Z;
  d_total_bytes : option Z;
  d_total_bytes_estimate : option Z;
}.

(** A [YoutubeCustomDownload] instance.  The host's [reporthook] is opaque:
    [dl_reporthook] says whether one is set and [dl_reported] lists the
    argument triples it has been called with, oldest first. *)
Record YoutubeCustomDownload := CustomDownload {
  dl_url : string;
  dl_reporthook : bool;
  dl_prev_dl_bytes : Z;
  dl_reported : list (Z * Z * Z);
}.

(** [YoutubeCustomDownload.__init__] *)
Definition new_download (url : string) : YoutubeCustomDownload :=
  {| dl_url := url; dl_reporthook := false; dl_prev_dl_bytes := 0;
     dl_reported := [] |}.

Definition set_reporthook (self : YoutubeCustomDownload) (h : bool)
    : YoutubeCustomDownload :=
  {| dl_url := dl_url self; dl_reporthook := h;
     dl_prev_dl_bytes := dl_prev_dl_bytes self;
     dl_reported := dl_reported self |}.

Definition add_prev_dl_bytes (self : YoutubeCustomDownload) (n : Z)
    : YoutubeCustomDownload :=
  {| dl_url := dl_url self; dl_reporthook := dl_reporthook self;
     dl_prev_dl_bytes := dl_prev_dl_bytes self + n;
     dl_reported := dl_reported self |}.

(** [self._reporthook(a, b, c)] *)
Definition call_reporthook (self : YoutubeCustomDownload) (a b c : Z)
    : YoutubeCustomDownload :=
  {| dl_url := dl_url self; dl_reporthook := dl_reporthook self;
     dl_prev_dl_bytes := dl_prev_dl_bytes self;
     dl_reported := dl_reported self ++ [(a, b, c)] |}.

Definition _my_hook (self : YoutubeCustomDownload) (d : hook_event)
    : result YoutubeCustomDownload :=
  status ← getitem "status" (d_status d);
  if bool_decide (status = "downloading") then
    if dl_reporthook self then
      dl_bytes ← getitem "downloaded_bytes" (d_downloaded_bytes d);
      let total_bytes :=
        or_else (truthyZ (d_total_bytes d))
          (or_else (truthyZ (d_total_bytes_estimate d)) 0) in
      Ok (call_reporthook self (dl_prev_dl_bytes self + dl_bytes) 1
            (dl_prev_dl_bytes self + total_bytes))
    else Ok self
  else if bool_decide (status = "finished") then
    dl_bytes ← getitem "downloaded_bytes" (d_downloaded_bytes d);
    let self := add_prev_dl_bytes self dl_bytes in
    if dl_reporthook self then
      Ok (call_reporthook self (dl_prev_dl_bytes self) 1 (dl_prev_dl_bytes self))
    else Ok self
  else
    (* 'error' and unknown statuses are only logged *)
    Ok self.

(** The backend delivers its events to the hook one after the other; an
    exception of the hook stops the delivery. *)
Fixpoint run_hook (self : YoutubeCustomDownload) (events : list hook_event)
    : result unit * YoutubeCustomDownload :=
  match events with
  | [] => (Ok (), self)
  | d :: events =>
      match _my_hook self d with
      | Ok self => run_hook self events
      | Raise x => (Raise x, self)
      end
  end.

(** ** Download orchestration: YoutubeCustomDownload.retrieve_resume *)

(** The file system, as far as [os.stat], [os.path.isfile], [os.remove] and
    [os.rename] look at it: a map from paths to nodes. *)
Inductive node :=
  | RegularFile (content : string)
  | Directory (st_size : Z).

Definition st_size_of (n : node) : Z :=
  match n with
  | RegularFile content => Z.of_nat (String.length content)
  | Directory sz => sz
  end.

(** [os.stat(path).st_size] *)
Definition os_stat_size (fs : gmap string node) (path : string) : result Z :=
  match fs !! path with
  | Some n => Ok (st_size_of n)
  | None => Raise (OSError path)
  end.

(** [os.path.isfile(path)] *)
Definition os_path_isfile (fs : gmap string node) (path : string) : bool :=
  match fs !! path with
  | Some (RegularFile _) => true
  | _ => false
  end.

(** [os.remove(path)] *)
Definition os_remove (fs : gmap string node) (path : string)
    : result (gmap string node) :=
  match fs !! path with
  | Some (RegularFile _) => Ok (delete path fs)
  | _ => Raise (OSError path)
  end.

(** [os.rename(src, dst)] *)
Definition os_rename (fs : gmap string node) (src dst : string)
    : result (gmap string node) :=
  match fs !! src with
  | None => Raise (OSError src)
  | Some n =>
      match n, fs !! dst with
      | RegularFile _, Some (Directory _) => Raise (OSError dst)
      | Directory _, Some (RegularFile _) => Raise (OSError dst)
      | _, _ => Ok (<[dst := n]> (delete src fs))
      end
  end.

(** The dictionary [res] returned by [fetch_video]. *)
Record fetch_info := FetchInfo {
  res_ext : option string;
  res_url : option string;
}.

Section retrieve.
(** [gPodderYoutubeDL.fetch_video(url, tempname, hook)]: the backend
    transfers the media.  It is given by the events it sends to the hook,
    the file system it leaves and the dictionary it returns or the
    exception it raises. *)
Variable fetch_video :
  string → string → gmap string node →
  list hook_event * gmap string node * result fetch_info.
(** [gpodder.util.mimetype_from_extension]; falsy results are [""]. *)
Variable mimetype_from_extension : string → string.

(** The first statements of [retrieve_resume]: the hook is installed and
    the backend runs. *)
Definition fetch_stage (self : YoutubeCustomDownload) (tempname : string)
    (reporthook : bool) (fs : gmap string node)
    : result fetch_info * YoutubeCustomDownload * gmap string node :=
  let self := set_reporthook self reporthook in
  let '(events, fs, res) := fetch_video (dl_url self) tempname fs in
  match run_hook self events with
  | (Raise x, self) => (Raise x, self, fs)
  | (Ok _, self) => (res, self, fs)
  end.

(** The repair of the output path (issue #673). *)
Definition repair_path (tempname dot_ext : string) (fs : gmap string node)
    : result (gmap string node) :=
  st_size ← os_stat_size fs tempname;
  if st_size =? 0 then
    let tempname_with_ext := tempname +:+ dot_ext in
    if os_path_isfile fs tempname_with_ext then
      fs ← os_remove fs tempname;
      os_rename fs tempname_with_ext tempname
    else Ok fs
  else Ok fs.

Definition retrieve_resume (self : YoutubeCustomDownload)
    (tempname : string) (reporthook : bool) (fs : gmap string node)
    : result (gmap string string * string)
      * YoutubeCustomDownload * gmap string node :=
  match fetch_stage self tempname reporthook fs with
  | (Raise x, self, fs) => (Raise x, self, fs)
  | (Ok res, self, fs) =>
      let final_url := or_else (res_url res) (dl_url self) in
      match res_ext res with
      | Some ext =>
          let dot_ext := "." +:+ ext in
          let ext_filetype := mimetype_from_extension dot_ext in
          let headers : gmap string string :=
            if bool_decide (ext_filetype = "") then ∅
            else {[ "content-type" := ext_filetype ]} in
          match repair_path tempname dot_ext fs with
          | Ok fs => (Ok (headers, final_url), self, fs)
          | Raise x => (Raise x, self, fs)
          end
      | None => (Ok (∅, final_url), self, fs)
      end
  end.
End retrieve.

(** A backend that merges two formats: it leaves [tempname] empty and writes
    the media to [tempname + '.mp4'] (issue #673). *)
Definition merging_fetch_video (url tempname : string) (fs : gmap string node)
    : list hook_event * gmap string node * result fetch_info :=
  ([ {| d_status := Some "finished"; d_downloaded_bytes := Some 4;
        d_total_bytes := Some 4; d_total_bytes_estimate := None |} ],
   <[tempname := RegularFile ""]>
     (<[tempname +:+ ".mp4" := RegularFile "data"]> fs),
   Ok {| res_ext := Some "mp4"; res_url := None |}).

Definition sample_mimetype (dot_ext : string) : string :=
  if bool_decide (dot_ext = ".mp4") then "video/mp4" else "".

(** ** YoutubeFeed *)

Record YoutubeFeed := Feed {
  feed_url : string;
  feed_cover_url : option string;
  feed_description : option string;
  feed_max_episodes : Z;
  feed_ie_result : extraction;
}.

Definition set_feed_entries (self : YoutubeFeed) (es : list entry)
    : YoutubeFeed :=
  {| feed_url := feed_url self; feed_cover_url := feed_cover_url self;
     feed_description := feed_description self;
     feed_max_episodes := feed_max_episodes self;
     feed_ie_result := set_entries (feed_ie_result self) es |}.

(** [YoutubeFeed.__init__]; the second component is what is left of the
    generator [ie_result['entries']]. *)
Definition new_YoutubeFeed (url : string) (cover_url description : option string)
    (max_episodes : Z) (ie_result : extraction)
    : result YoutubeFeed * list entry :=
  match _process_entries max_episodes (or_else (ie_entries ie_result) []) with
  | (Ok filtered, rest) =>
      (Ok {| feed_url := url; feed_cover_url := cover_url;
             feed_description := description;
             feed_max_episodes := max_episodes;
             feed_ie_result := set_entries ie_result filtered |}, rest)
  | (Raise x, rest) => (Raise x, rest)
  end.

(** The dictionary [ep] handed to [channel.episode_factory]. *)
Record episode := Episode {
  ep_title : string;
  ep_link : option string;
  ep_description : string;
  ep_description_html : string;
  ep_url : option string;
  ep_file_size : Z;
  ep_mime_type : string;
  ep_guid : string;
  ep_published : Z;
  ep_total_time : Z;
}.

(** The outcome of one call of [get_new_episodes]: the value returned or the
    exception raised, the feed object afterwards, the arguments of the calls
    of [refresh_entries], and the episodes saved, both oldest first. *)
Record sync_outcome := SyncOutcome {
  so_result : result (list episode * gset string);
  so_feed : YoutubeFeed;
  so_refreshed : list extraction;
  so_saved : list episode;
}.

(** [[e for i, e in enumerate(entries) if not max_episodes or i < max_episodes]] *)
Definition trim_entries (max_episodes : Z) (entries : list entry) : list entry :=
  omap (λ '(i, e),
          if (max_episodes =? 0) || (Z.of_nat i <? max_episodes)
          then Some e else None)
       (imap pair entries).

(** [[e for e in entries if e['guid'] not in existing_guids]], with the
    [KeyError] of an entry without a guid. *)
Fixpoint select_new (existing_guids : gset string) (entries : list entry)
    : result (list entry) :=
  match entries with
  | [] => Ok []
  | e :: entries =>
      guid ← getitem "guid" (e_guid e);
      new ← select_new existing_guids entries;
      Ok (if bool_decide (guid ∈ existing_guids) then new else e :: new)
  end.

(** An entry is new when its guid is not among the known ones. *)
Definition is_new (existing_guids : gset string) (e : entry) : bool :=
  match e_guid e with
  | Some guid => bool_decide (guid ∉ existing_guids)
  | None => false
  end.

(** [set(e['guid'] for e in entries)] *)
Fixpoint guid_set (entries : list entry) : result (gset string) :=
  match entries with
  | [] => Ok ∅
  | e :: entries =>
      guid ← getitem "guid" (e_guid e);
      guids ← guid_set entries;
      Ok ({[guid]} ∪ guids)
  end.

Definition quote : string := String "034"%char "".
Definition newline : ascii := "010"%char.

(** [description.replace('\n', '<br>')] *)
Fixpoint replace_newlines (s : string) : string :=
  match s with
  | EmptyString => ""
  | String c s =>
      if bool_decide (c = newline) then "<br>" +:+ replace_newlines s
      else String c (replace_newlines s)
  end.

Section sync.
(** [gPodderYoutubeDL.refresh_entries(ie_result, max_episodes)]: the backend
    enriches the entries of [ie_result] in place; a [DownloadError] is
    logged and swallowed.  The function gives the value of
    [ie_result['entries']] after the call. *)
Variable refresh_entries : extraction → Z → list entry.
Variable mktime : struct_time → Z.
(** [gpodder.util.remove_html_tags], [gpodder.util.mimetype_from_extension],
    [gpodder.gettext], and the substitution
    [re.sub(r'https?://[^\s]+', r'<a href="\g<0>">\g<0></a>', _)]. *)
Variable remove_html_tags : string → string.
Variable mimetype_from_extension : string → string.
Variable gettext : string → string.
Variable link_urls : string → string.

(** [YoutubeFeed.nice_html_description] *)
Definition nice_html_description (en : entry) (description : string)
    : string :=
  let description := link_urls description in
  let description := replace_newlines description in
  let html :=
    "<style type=" +:+ quote +:+ "text/css" +:+ quote +:+ ">"
    +:+ String newline
          "        body > img { float: left; max-width: 30vw; margin: 0 1em 1em 0; }"
    +:+ String newline "        </style>"
    +:+ String newline "        " in
  let html :=
    match truthyS (e_thumbnail en) with
    | Some img => html +:+ "<img src=" +:+ quote +:+ img +:+ quote +:+ ">"
    | None => html
    end in
  html +:+ "<p>" +:+ description +:+ "</p>".

(** The dictionary [ep] built from one enriched entry. *)
Definition build_episode (en : entry) : result episode :=
  id ← getitem "id" (e_id en);
  let guid := video_guid id in
  let description :=
    remove_html_tags
      (or_else (truthyS (e_description en))
               (gettext "No description available")) in
  let html_description := nice_html_description en description in
  let mime_type :=
    match truthyS (e_ext en) with
    | Some ext => mimetype_from_extension ("." +:+ ext)
    | None => "application/octet-stream"
    end in
  let filesize :=
    match truthyZ (e_filesize en) with
    | Some filesize => filesize
    | None =>
        foldr Z.add 0
          ((λ f, or_else (truthyZ (f_filesize f)) 0)
             <$> or_else (e_requested_formats en) [])
    end in
  published ← youtube_parsedate mktime (e_upload_date en);
  Ok {| ep_title := or_else (e_title en) guid;
        ep_link := e_webpage_url en;
        ep_description := description;
        ep_description_html := html_description;
        ep_url := e_webpage_url en;
        ep_file_size := filesize;
        ep_mime_type := mime_type;
        ep_guid := guid;
        ep_published := published;
        ep_total_time := or_else (truthyZ (e_duration en)) 0 |}.

(** The loop over the enriched entries: every episode is saved as soon as
    it is created, so the episodes saved before an exception stay saved. *)
Fixpoint save_episodes (entries : list entry) (episodes : list episode)
    : result (list episode) * list episode :=
  match entries with
  | [] => (Ok episodes, episodes)
  | en :: entries =>
      match build_episode en with
      | Ok ep => save_episodes entries (episodes ++ [ep])
      | Raise x => (Raise x, episodes)
      end
  end.

Definition get_new_episodes (self : YoutubeFeed) (existing_guids : gset string)
    : sync_outcome :=
  let failed x :=
    {| so_result := Raise x; so_feed := self;
       so_refreshed := []; so_saved := [] |} in
  match getitem "entries" (ie_entries (feed_ie_result self)) with
  | Raise x => failed x
  | Ok all_entries =>
  let entries := trim_entries (feed_max_episodes self) all_entries in
  match guid_set entries with
  | Raise x => failed x
  | Ok all_seen_guids =>
  match select_new existing_guids entries with
  | Raise x => failed x
  | Ok new_entries =>
  let self := set_feed_entries self new_entries in
  let request := feed_ie_result self in
  let self :=
    set_feed_entries self (refresh_entries request (feed_max_episodes self)) in
  let '(episodes, saved) :=
    save_episodes (or_else (ie_entries (feed_ie_result self)) []) [] in
  {| so_result := eps ← episodes; Ok (eps, all_seen_guids);
     so_feed := self;
     so_refreshed := [request];
     so_saved := saved |}
  end end end.
End sync.

(** ** Feed resolver: gPodderYoutubeDL.refresh *)

(** [feedcore.Result(feedcore.UPDATED_FEED, feed)] *)
Inductive feed_status := UPDATED_FEED.
Record feed_result := FeedResult {
  fr_status : feed_status;
  fr_feed : YoutubeFeed;
}.

(** The local function [extract_type] of [refresh]. *)
Definition extract_type (ie_result : extraction) : result (string * bool) :=
  let result_type := or_else (ie_type ie_result) "video" in
  if bool_decide (result_type ∉ ["url"; "playlist"; "multi_video"]) then
    Raise (UnsupportedResultType result_type)
  else
    Ok (result_type, bool_decide (result_type ∈ ["playlist"; "multi_video"])).

Section resolver.
(** [ydl.extract_info(url, download=False, process=False, ie_key=ie_key)]
    and [youtube_dl.utils.sanitize_url]. *)
Variable extract_info : string → option string → result extraction.
Variable sanitize_url : string → string.
(** [youtube.get_cover] and [youtube.get_channel_desc]. *)
Variable get_cover : string → option string.
Variable get_channel_desc : string → option string.

(** One turn of the [while not has_playlist] loop. *)
Definition resolve_step (ie_result : extraction) (result_type : string)
    : result (extraction * (string * bool)) :=
  ie_result ←
    (if bool_decide (result_type ∈ ["url"; "url_transparent"]) then
       url ← getitem "url" (ie_url ie_result);
       Ok (set_url ie_result (sanitize_url url))
     else Ok ie_result);
  ie_result ←
    (if bool_decide (result_type = "url") then
       url ← getitem "url" (ie_url ie_result);
       extract_info url (ie_ie_key ie_result)
     else Ok ie_result);
  t ← extract_type ie_result;
  Ok (ie_result, t).

(** The loop, with a bound on the number of turns: [None] when the bound
    is reached before the loop has ended. *)
Fixpoint resolve_loop (fuel : nat) (ie_result : extraction)
    (result_type : string) (has_playlist : bool)
    : option (result extraction) :=
  if has_playlist then Some (Ok ie_result)
  else
    match fuel with
    | O => None
    | S fuel =>
        match resolve_step ie_result result_type with
        | Raise x => Some (Raise x)
        | Ok (ie_result, (result_type, has_playlist)) =>
            resolve_loop fuel ie_result result_type has_playlist
        end
    end.

(** The tree the loop ends with. *)
Definition resolve (fuel : nat) (url : string) : option (result extraction) :=
  match extract_info url None with
  | Raise x => Some (Raise x)
  | Ok ie_result =>
      match extract_type ie_result with
      | Raise x => Some (Raise x)
      | Ok (result_type, has_playlist) =>
          resolve_loop fuel ie_result result_type has_playlist
      end
  end.

Definition refresh (fuel : nat) (url channel_url : string) (max_episodes : Z)
    : option (result feed_result) :=
  r ← resolve fuel url;
  Some (ie_result ← r;
        let cover_url := get_cover channel_url in
        let description := get_channel_desc channel_url in
        feed ← (new_YoutubeFeed url cover_url description max_episodes
                  ie_result).1;
        Ok {| fr_status := UPDATED_FEED; fr_feed := feed |}).
End resolver.

(** *** Sample backends *)

Definition tree (type url ie_key : option string) (entries : option (list entry))
    : extraction :=
  {| ie_type := type; ie_id := None; ie_title := None; ie_url := url;
     ie_ie_key := ie_key; ie_webpage_url := None; ie_entries := entries |}.

Definition channel_page : string := "https://www.youtube.com/channel/c".
Definition videos_page : string := "https://www.youtube.com/channel/c/videos".
Definition uploads_page : string := "https://www.youtube.com/playlist?list=UUc".

Definition uploads_playlist : extraction :=
  tree (Some "playlist") None None (Some [video_entry "a"; video_entry "b"]).

(** A backend that answers the channel page with a redirection of type
    [link_type] to the videos page, that one with a redirection of the same
    type to the uploads page, and that one with the playlist. *)
Definition chain_backend (link_type : string) (url : string)
    (ie_key : option string) : result extraction :=
  if bool_decide (url = channel_page) then
    Ok (tree (Some link_type) (Some videos_page) (Some "YoutubeChannel") None)
  else if bool_decide (url = videos_page) then
    Ok (tree (Some link_type) (Some uploads_page) (Some "YoutubePlaylist") None)
  else if bool_decide (url = uploads_page) then Ok uploads_playlist
  else Raise (DownloadError "Unsupported URL").


(** [sanitize_url] on URLs that already carry a scheme. *)
Definition keep_url (url : string) : string := url.

Definition no_lookup (channel_url : string) : option string := None.

(** A backend that enriches every entry with an upload date and a duration
    and keeps its other keys, and host helpers that leave texts alone. *)
Definition enrich_entry (e : entry) : entry :=
  {| e_type := e_type e; e_ie_key := e_ie_key e; e_id := e_id e;
     e_guid := e_guid e; e_title := e_title e; e_url := e_url e;
     e_webpage_url := e_webpage_url e; e_description := e_description e;
     e_thumbnail := e_thumbnail e; e_upload_date := Some "20170920";
     e_duration := Some 60; e_filesize := e_filesize e;
     e_ext := Some "mp4"; e_requested_formats := e_requested_formats e |}.

Definition sample_refresh_entries (ie_result : extraction) (max_episodes : Z)
    : list entry :=
  enrich_entry <$> or_else (ie_entries ie_result) [].

(** A backend that, like [YoutubeDL.process_ie_result] on entries of type
    [url], replaces every entry by the dictionary of a fresh extraction of the
    video: the keys of the extractor are there, the key [guid] that
    [_process_entries] added is not. *)
Definition extracted_entry (e : entry) : entry :=
  {| e_type := Some "video"; e_ie_key := None; e_id := e_id e;
     e_guid := None; e_title := e_title e; e_url := e_url e;
     e_webpage_url := e_webpage_url e; e_description := e_description e;
     e_thumbnail := e_thumbnail e; e_upload_date := Some "20170920";
     e_duration := Some 60; e_filesize := e_filesize e;
     e_ext := Some "mp4"; e_requested_formats := e_requested_formats e |}.

Definition extracting_refresh_entries (ie_result : extraction)
    (max_episodes : Z) : list entry :=
  extracted_entry <$> or_else (ie_entries ie_result) [].

Definition keep_text (s : string) : string := s.

(** The feed made from a listing of four videos, without a cap. *)
Definition sample_feed : YoutubeFeed :=
  {| feed_url := channel_page; feed_cover_url := None;
     feed_description := None; feed_max_episodes := 0;
     feed_ie_result :=
       tree (Some "playlist") None None
         (Some (first_occurrences
                  [video_entry "a"; video_entry "b"; video_entry "c";
                   video_entry "d"])) |}.

(** ** Recognition of feed and episode URLs *)

(** The regular expressions of the module use literal characters, the
    wildcard [.] (any character but a newline) and a final [.+].  A pattern
    is the list of its items before the final [.+]. *)
Inductive re_item :=
  | Lit (c : ascii)
  | AnyChar.

Fixpoint lits (s : string) : list re_item :=
  match s with
  | EmptyString => []
  | String c s => Lit c :: lits s
  end.

Definition matches_item (i : re_item) (c : ascii) : bool :=
  match i with
  | Lit c' => bool_decide (c = c')
  | AnyChar => negb (bool_decide (c = newline))
  end.

(** The items matched at the start of the string: the rest of the string. *)
Fixpoint re_match_prefix (pat : list re_item) (s : string) : option string :=
  match pat, s with
  | [], _ => Some s
  | i :: pat, String c s =>
      if matches_item i c then re_match_prefix pat s else None
  | _ :: _, EmptyString => None
  end.

(** What a greedy [.+] or [.*] takes: the characters up to the first
    newline. *)
Fixpoint take_line (s : string) : string :=
  match s with
  | EmptyString => ""
  | String c s => if bool_decide (c = newline) then "" else String c (take_line s)
  end.

(** [re.compile(pat + '(.+)').match(s)]: [m.group(1)] when there is a match. *)
Definition re_match_group (pat : list re_item) (s : string) : option string :=
  rest ← re_match_prefix pat s;
  if bool_decide (take_line rest = "") then None else Some (take_line rest).

(** [https://www.youtube.com/feeds/videos.xml\?channel_id=(.+)] *)
Definition CHANNEL_RE : list re_item :=
  lits "https://www" ++ [AnyChar] ++ lits "youtube" ++ [AnyChar]
  ++ lits "com/feeds/videos" ++ [AnyChar] ++ lits "xml?channel_id=".

(** [https://www.youtube.com/feeds/videos.xml\?playlist_id=(.+)] *)
Definition PLAYLIST_RE : list re_item :=
  lits "https://www" ++ [AnyChar] ++ lits "youtube" ++ [AnyChar]
  ++ lits "com/feeds/videos" ++ [AnyChar] ++ lits "xml?playlist_id=".

(** [https://www.youtube.com/watch\?v=.+], without the final [.+] *)
Definition WATCH_RE : list re_item :=
  lits "https://www" ++ [AnyChar] ++ lits "youtube" ++ [AnyChar]
  ++ lits "com/watch?v=".

(** What a feed handler or a downloader resolver answers: [Declined] is the
    [None] that lets the host try its other handlers. *)
Inductive handled (A : Type) :=
  | Declined
  | Handled (a : A).
Arguments Declined {A}.
Arguments Handled {A} a.

(** The page that [fetch_channel] hands to [refresh] for a channel URL. *)
Definition channel_page_of (channel_url : string) : option string :=
  match re_match_group CHANNEL_RE channel_url with
  | Some id => Some ("https://www.youtube.com/channel/" +:+ id)
  | None =>
      match re_match_group PLAYLIST_RE channel_url with
      | Some id => Some ("https://www.youtube.com/playlist?list=" +:+ id)
      | None => None
      end
  end.

Section fetch_channel.
Variable extract_info : string → option string → result extraction.
Variable sanitize_url : string → string.
Variable get_cover : string → option string.
Variable get_channel_desc : string → option string.

(** [gPodderYoutubeDL.fetch_channel(channel, max_episodes)], on
    [channel.url]. *)
Definition fetch_channel (fuel : nat) (channel_url : string) (max_episodes : Z)
    : handled (option (result feed_result)) :=
  match truthyS (channel_page_of channel_url) with
  | Some url =>
      Handled (refresh extract_info sanitize_url get_cover get_channel_desc
                 fuel url channel_url max_episodes)
  | None => Declined
  end.
End fetch_channel.

(** The episode of the host, as [custom_downloader] reads it. *)
Record host_episode := HostEpisode {
  he_url : string;
  he_link : string;
}.

(** [re.match(r'https://www.youtube.com/watch\?v=.+', s)] *)
Definition is_watch_url (s : string) : bool :=
  match re_match_prefix WATCH_RE s with
  | Some rest => negb (bool_decide (take_line rest = ""))
  | None => false
  end.

(** [gPodderYoutubeDL.custom_downloader(unused_config, episode)] *)
Definition custom_downloader (episode : host_episode)
    : option YoutubeCustomDownload :=
  if is_watch_url (he_url episode) then Some (new_download (he_url episode))
  else if is_watch_url (he_link episode) then
    Some (new_download (he_link episode))
  else None.

(** ** Quantities of the progress adapter *)

(** The bytes of the fragments that an event list reports as finished. *)
Fixpoint finished_bytes (events : list hook_event) : Z :=
  match events with
  | [] => 0
  | d :: events =>
      (if bool_decide (d_status d = Some "finished")
       then or_else (d_downloaded_bytes d) 0 else 0)
      + finished_bytes events
  end.

(** The events on which the adapter calls the host: downloading and
    finished. *)
Definition is_reporting (d : hook_event) : bool :=
  bool_decide (d_status d = Some "downloading")
  || bool_decide (d_status d = Some "finished").

(** A backend that answers every URL with a redirection to the same URL. *)
Definition looping_backend (url : string) (ie_key : option string)
    : result extraction :=
  Ok (tree (Some "url") (Some url) ie_key None).

(** More sample data: an extracted entry without an [id], a feed whose
    entries were never tagged, and a feed with a negative cap. *)
Definition no_id_entry : entry :=
  {| e_type := Some "video"; e_ie_key := None; e_id := None;
     e_guid := None; e_title := None; e_url := None; e_webpage_url := None;
     e_description := None; e_thumbnail := None; e_upload_date := None;
     e_duration := None; e_filesize := None; e_ext := None;
     e_requested_formats := None |}.

Definition untagged_feed : YoutubeFeed :=
  {| feed_url := channel_page; feed_cover_url := None;
     feed_description := None; feed_max_episodes := 0;
     feed_ie_result :=
       tree (Some "playlist") None None (Some [video_entry "a"]) |}.

Definition negative_cap_feed : YoutubeFeed :=
  {| feed_url := channel_page; feed_cover_url := None;
     feed_description := None; feed_max_episodes := -1;
     feed_ie_result := feed_ie_result sample_feed |}.

(** A backend that answers with one enriched entry followed by an entry
    without an [id]. *)
Definition broken_refresh_entries (ie_result : extraction) (max_episodes : Z)
    : list entry :=
  [enrich_entry (video_entry "c"); no_id_entry].

(** The URLs that the three patterns accept, with the characters that stand
    at the places of the wildcards. *)
Definition channel_feed_url (c1 c2 c3 : ascii) (rest : string) : string :=
  "https://www" +:+ String c1 ("youtube" +:+ String c2 ("com/feeds/videos"
    +:+ String c3 ("xml?channel_id=" +:+ rest))).
Definition playlist_feed_url (c1 c2 c3 : ascii) (rest : string) : string :=
  "https://www" +:+ String c1 ("youtube" +:+ String c2 ("com/feeds/videos"
    +:+ String c3 ("xml?playlist_id=" +:+ rest))).
Definition watch_url (c1 c2 : ascii) (rest : string) : string :=
  "https://www" +:+ String c1 ("youtube" +:+ String c2 ("com/watch?v="
    +:+ rest)).

(** A line: a text without newline; and what may follow the part of a text
    that [.+] takes: nothing, or a newline and anything. *)
Definition is_line (s : string) : Prop :=
  newline ∉ String.list_ascii_of_string s.
Definition line_end (tail : string) : Prop :=
  tail = "" ∨ ∃ t, tail = String newline t.

(** * Properties *)

(** ** The filter / dedup engine *)

Section process_entries_facts.
Implicit Types (e : entry) (es pre consumed rest earlier : list entry).
Implicit Types (seen : gset string) (guid : string).

Lemma first_occurrences_from_app earlier es1 es2 :
  first_occurrences_from earlier (es1 ++ es2)
  = first_occurrences_from earlier es1
    ++ first_occurrences_from (earlier ++ es1) es2.
Proof.
  revert earlier. induction es1 as [|e es1 IH]; intros earlier; simpl.
  - by rewrite app_nil_r.
  - rewrite IH, <- !(assoc_L (++)). done.
Qed.

Lemma first_occurrences_snoc pre e :
  first_occurrences (pre ++ [e])
  = first_occurrences pre
    ++ match derived_guid e with
       | Some guid =>
           if bool_decide (Some guid ∈ derived_guid <$> pre) then []
           else [set_guid e guid]
       | None => []
       end.
Proof.
  unfold first_occurrences. rewrite first_occurrences_from_app. simpl.
  by rewrite app_nil_r.
Qed.

Lemma length_first_occurrences_snoc pre e :
  (length (first_occurrences (pre ++ [e])) ≤ S (length (first_occurrences pre)))%nat.
Proof.
  rewrite first_occurrences_snoc, length_app.
  destruct (derived_guid e); [case_bool_decide|]; simpl; lia.
Qed.

(** What the output of the declarative reading is made of. *)
Lemma elem_of_first_occurrences_from earlier es x :
  x ∈ first_occurrences_from earlier es →
  ∃ e guid, e ∈ es ∧ derived_guid e = Some guid ∧ x = set_guid e guid
            ∧ Some guid ∉ derived_guid <$> earlier.
Proof.
  revert earlier. induction es as [|e es IH]; intros earlier; simpl.
  - by intros ?%elem_of_nil.
  - rewrite elem_of_app. intros [Hx|Hx].
    + destruct (derived_guid e) as [guid|] eqn:Hg; [|by apply elem_of_nil in Hx].
      case_bool_decide; [by apply elem_of_nil in Hx|].
      apply list_elem_of_singleton in Hx as ->.
      exists e, guid. by rewrite elem_of_cons; auto.
    + destruct (IH _ Hx) as (e' & guid & ? & ? & ? & Hnot).
      exists e', guid. split_and!; [by apply elem_of_cons; auto|done..|].
      intros ?. apply Hnot. rewrite fmap_app, elem_of_app. auto.
Qed.

Lemma guids_first_occurrences_from earlier es guid :
  Some guid ∈ e_guid <$> first_occurrences_from earlier es
  ↔ Some guid ∈ derived_guid <$> es ∧ Some guid ∉ derived_guid <$> earlier.
Proof.
  revert earlier. induction es as [|e es IH]; intros earlier; simpl.
  - rewrite !elem_of_nil. tauto.
  - rewrite fmap_app, elem_of_app, IH, fmap_app, !elem_of_app, elem_of_cons.
    simpl. rewrite list_elem_of_singleton.
    destruct (derived_guid e) as [g|] eqn:Hg; [case_bool_decide as Hin|]; simpl;
      rewrite ?elem_of_nil, ?list_elem_of_singleton.
    + split; [tauto|].
      intros [[Heq| ?] ?]; [|intuition congruence]. congruence.
    + split; [intuition congruence|].
      intros [[Heq| ?] ?].
      * left. congruence.
      * destruct (decide (g = guid)) as [->|]; [by left|].
        right. split; [done|]. intros [?|?]; [done|congruence].
    + intuition congruence.
Qed.

Lemma NoDup_guids_first_occurrences_from earlier es :
  NoDup (e_guid <$> first_occurrences_from earlier es).
Proof.
  revert earlier. induction es as [|e es IH]; intros earlier; simpl.
  - constructor.
  - rewrite fmap_app. apply NoDup_app. split_and!; [| |apply IH].
    + destruct (derived_guid e); [case_bool_decide|]; simpl;
        repeat constructor; by intros ?%elem_of_nil.
    + intros o Ho Ho'.
      destruct (derived_guid e) as [g|] eqn:Hg; [|by apply elem_of_nil in Ho].
      case_bool_decide; [by apply elem_of_nil in Ho|]. simpl in Ho.
      apply list_elem_of_singleton in Ho as ->.
      apply guids_first_occurrences_from in Ho' as [_ Hnot].
      apply Hnot. rewrite fmap_app, elem_of_app. right.
      simpl. rewrite Hg. by apply list_elem_of_singleton.
Qed.


Lemma loop_inv_nil : loop_inv [] [] ∅.
Proof. split; [done|]. intros guid. simpl. rewrite elem_of_nil. set_solver. Qed.

Lemma process_entry_ok pre filtered seen e filtered' seen' :
  loop_inv pre filtered seen →
  process_entry e filtered seen = Ok (filtered', seen') →
  loop_inv (pre ++ [e]) filtered' seen'.
Proof.
  intros [-> Hseen] He. unfold loop_inv.
  rewrite first_occurrences_snoc.
  setoid_rewrite fmap_app. setoid_rewrite elem_of_app. simpl.
  setoid_rewrite list_elem_of_singleton.
  unfold process_entry in He.
  assert (derived_guid e
          = if is_youtube_url e then video_guid <$> e_id e else None) as Hd
    by done.
  destruct (is_youtube_url e).
  - destruct (e_id e) as [id|]; simpl in *; [|done]. rewrite Hd.
    case_bool_decide as Hin; simplify_eq.
    + rewrite bool_decide_true by (by apply Hseen). rewrite app_nil_r. split; [done|]. intros g. rewrite Hseen.
      split; [by left|]. intros [?|[= ->]]; [done|by apply Hseen].
    + rewrite bool_decide_false by (by rewrite <- Hseen).
      split; [done|]. intros g. rewrite elem_of_union, elem_of_singleton, Hseen.
      split; [intros [?| ->]; auto|intros [?|[= ->]]; auto].
  - simplify_eq. rewrite Hd, app_nil_r. split; [done|].
    intros g. rewrite Hseen. split; [by left|]. by intros [?|?].
Qed.

Lemma process_entry_raise filtered seen e x :
  process_entry e filtered seen = Raise x →
  x = KeyError "id" ∧ is_youtube_url e = true ∧ e_id e = None.
Proof.
  unfold process_entry. destruct (is_youtube_url e); [|done].
  destruct (e_id e); simpl; [by case_bool_decide|]. by intros [= <-].
Qed.

(** The loop, from any of its states: what it has read when it ends, and
    why it ended. *)
Lemma process_loop_spec max_episodes es pre filtered seen r rest :
  loop_inv pre filtered seen →
  process_loop max_episodes es filtered seen = (r, rest) →
  ∃ consumed,
    es = consumed ++ rest ∧
    match r with
    | Ok out =>
        out = first_occurrences (pre ++ consumed) ∧
        (rest = [] ∧ (consumed = [] ∨ Z.of_nat (length out) ≠ max_episodes)
         ∨ ∃ read e, consumed = read ++ [e]
                     ∧ Z.of_nat (length out) = max_episodes)
    | Raise x =>
        x = KeyError "id" ∧
        ∃ read e, consumed = read ++ [e] ∧ is_youtube_url e = true
                  ∧ e_id e = None
    end
    ∧ ∀ read, read `prefix_of` consumed → read ≠ consumed → read ≠ [] →
        Z.of_nat (length (first_occurrences (pre ++ read))) ≠ max_episodes.
Proof.
  revert pre filtered seen.
  induction es as [|e es IH]; intros pre filtered seen Hinv; simpl.
  - intros [= <- <-]. exists []. rewrite !app_nil_r.
    split; [done|]. split.
    + destruct Hinv as [-> _]. split; [done|]. left. auto.
    + by intros read ->%prefix_nil_inv.
  - destruct (process_entry e filtered seen) as [[filtered' seen']|x] eqn:He.
    + pose proof (process_entry_ok _ _ _ _ _ _ Hinv He) as Hinv'.
      destruct (Z.eqb_spec (Z.of_nat (length filtered')) max_episodes)
        as [Hstop|Hgo].
      * intros [= <- <-]. exists [e]. split; [done|]. split.
        -- destruct Hinv' as [-> _]. split; [done|]. right. by exists [], e.
        -- intros read [k Hk] Hne Hne'.
           destruct read as [|? [|]]; simplify_eq/=.
      * intros Hloop.
        destruct (IH _ _ _ Hinv' Hloop) as (consumed & -> & Hr & Hpref).
        exists (e :: consumed). split; [done|]. split.
        -- destruct r as [out|x].
           ++ rewrite <- (assoc_L (++)) in Hr. destruct Hr as [-> Hr].
              split; [done|].
              destruct Hr as [[-> Hlen]|(read & e' & -> & Hlen)].
              ** left. split; [done|]. right.
                 destruct Hlen as [->|Hlen]; [|done].
                 rewrite app_nil_r. by destruct Hinv' as [<- _].
              ** right. by exists (e :: read), e'.
           ++ destruct Hr as [-> (read & e' & -> & ? & ?)].
              split; [done|]. by exists (e :: read), e'.
        -- intros read Hp Hne Hne'. destruct read as [|e0 read]; [done|].
           pose proof (prefix_cons_inv_1 _ _ _ _ Hp) as ->.
           apply prefix_cons_inv_2 in Hp.
           destruct read as [|e1 read].
           ++ by destruct Hinv' as [<- _].
           ++ specialize (Hpref (e1 :: read) Hp).
              rewrite <- (assoc_L (++)) in Hpref.
              apply Hpref; [congruence|done].
    + apply process_entry_raise in He as (-> & ? & ?).
      intros [= <- <-]. exists [e]. split; [done|]. split.
      * split; [done|]. by exists [], e.
      * intros read [k Hk] Hne Hne'.
        destruct read as [|? [|]]; simplify_eq/=.
Qed.

(** Below the cap: no proper prefix of what the loop reads has reached it. *)
Lemma below_cap (N : Z) consumed :
  0 < N →
  (∀ read, read `prefix_of` consumed → read ≠ consumed → read ≠ [] →
     Z.of_nat (length (first_occurrences read)) ≠ N) →
  ∀ read, read `prefix_of` consumed → read ≠ consumed →
    Z.of_nat (length (first_occurrences read)) < N.
Proof.
  intros HN Hne read. induction read as [|e read IH] using rev_ind.
  - intros _ _. simpl. lia.
  - intros Hp Hneq.
    assert (read `prefix_of` consumed) as Hp'.
    { etrans; [|exact Hp]. by apply prefix_app_r. }
    assert (read ≠ consumed) as Hneq'.
    { intros ->. apply prefix_length in Hp. rewrite length_app in Hp.
      simpl in Hp. lia. }
    specialize (IH Hp' Hneq').
    pose proof (length_first_occurrences_snoc read e).
    assert (read ++ [e] ≠ []) as Hnil by (by destruct read).
    specialize (Hne (read ++ [e]) Hp Hneq Hnil).
    lia.
Qed.
End process_entries_facts.

(** C1. For a cap [N > 0], [_process_entries] emits at most [N] entries, and
    when it emits [N] the last element it has pulled from the generator is
    the one accepted as the [N]th: the elements after it are left unread.
    When fewer than [N] entries are emitted the generator is exhausted.
    [consumed] is the part of the input that was read; the second component
    of the result is what the generator still holds. *)
Theorem process_entries_stops_at_cap (N : Z) (entries : list entry) :
  0 < N →
  ∃ consumed,
    entries = consumed ++ (_process_entries N entries).2 ∧
    Z.of_nat (length (first_occurrences consumed)) ≤ N ∧
    match (_process_entries N entries).1 with
    | Ok out =>
        out = first_occurrences consumed ∧
        Z.of_nat (length out) ≤ N ∧
        (Z.of_nat (length out) < N → (_process_entries N entries).2 = []) ∧
        (Z.of_nat (length out) = N →
         ∃ read e guid,
           consumed = read ++ [e] ∧
           Z.of_nat (length (first_occurrences read)) = N - 1 ∧
           derived_guid e = Some guid ∧
           out = first_occurrences read ++ [set_guid e guid])
    | Raise x =>
        x = KeyError "id" ∧
        Z.of_nat (length (first_occurrences consumed)) < N
    end.
Proof.
  intros HN. destruct (_process_entries N entries) as [r rest] eqn:Hrun.
  unfold _process_entries in Hrun. simpl.
  destruct (process_loop_spec _ _ _ _ _ _ _ loop_inv_nil Hrun)
    as (consumed & -> & Hr & Hpre). simpl in Hr, Hpre.
  pose proof (below_cap N consumed HN Hpre) as Hlt.
  assert (∀ read e, consumed = read ++ [e] →
            Z.of_nat (length (first_occurrences read)) < N) as Hlast.
  { intros read e ->. apply Hlt; [by apply prefix_app_r|].
    intros Heq. apply (f_equal length) in Heq. rewrite length_app in Heq.
    simpl in Heq. lia. }
  assert (Z.of_nat (length (first_occurrences consumed)) ≤ N) as Hle.
  { destruct consumed as [|e0 consumed0] using rev_ind; [simpl; lia|].
    pose proof (length_first_occurrences_snoc consumed0 e0).
    specialize (Hlast _ _ eq_refl). lia. }
  exists consumed. split; [done|]. split; [done|].
  destruct r as [out|x].
  - destruct Hr as [-> Hr]. split; [done|]. split; [done|]. split.
    + intros Hless. destruct Hr as [[-> _]|(? & ? & _ & ?)]; [done|lia].
    + intros Hfull.
      assert (∃ read e, consumed = read ++ [e]) as (read & e & ->).
      { destruct Hr as [[_ [->|?]]|(read & e & -> & _)]; [simpl in *; lia|done|].
        by exists read, e. }
      specialize (Hlast _ _ eq_refl).
      rewrite first_occurrences_snoc in Hfull |- *. rewrite length_app in Hfull.
      destruct (derived_guid e) as [guid|] eqn:Hg; [|simpl in *; lia].
      case_bool_decide; [simpl in *; lia|].
      exists read, e, guid. simpl in Hfull. split_and!; [done|lia|done|done].
  - destruct Hr as [-> (read & e & -> & Hy & Hid)]. split; [done|].
    specialize (Hlast _ _ eq_refl).
    rewrite first_occurrences_snoc. unfold derived_guid. rewrite Hy, Hid. simpl.
    by rewrite app_nil_r.
Qed.





Lemma process_entries_stops_at_cap_witness :
  0 < 2 ∧
  ∃ consumed,
    [video_entry "a"; playlist_link "p"; video_entry "a"; video_entry "b";
     video_entry "c"] = consumed ++ [video_entry "c"] ∧
    Z.of_nat (length (first_occurrences consumed)) ≤ 2.
Proof.
  split; [lia|].
  destruct (process_entries_stops_at_cap 2
              [video_entry "a"; playlist_link "p"; video_entry "a";
               video_entry "b"; video_entry "c"])
    as (consumed & H1 & H2 & _); [lia|].
  exists consumed. split; [exact H1|exact H2].
Defined.



(** C3 (the code departs from it). With [max_episodes = 0] the test
    [len(filtered_entries) == self._max_episodes] holds after a first entry
    that is rejected: the loop stops there, the rest of the listing is not
    read and nothing is emitted. *)
Theorem process_entries_unlimited_first_rejected :
  _process_entries 0 [playlist_link "p"; video_entry "a"; video_entry "b"]
  = (Ok [], [video_entry "a"; video_entry "b"]).
Proof. reflexivity. Qed.

(** The same for any listing that starts with an entry that is not a video. *)
Lemma process_entries_unlimited_stops e es :
  is_youtube_url e = false → _process_entries 0 (e :: es) = (Ok [], es).
Proof.
  intros He. unfold _process_entries. simpl. unfold process_entry.
  by rewrite He.
Qed.

(** Past an accepted first entry the cap 0 never stops the loop. *)
Lemma process_loop_unlimited es filtered seen r rest :
  filtered ≠ [] → process_loop 0 es filtered seen = (r, rest) →
  rest = [] ∨ ∃ x, r = Raise x.
Proof.
  revert filtered seen. induction es as [|e es IH]; intros filtered seen Hne; simpl.
  - intros [= <- <-]. by left.
  - destruct (process_entry e filtered seen) as [[filtered' seen']|x] eqn:He.
    + assert (filtered' ≠ []) as Hne'.
      { unfold process_entry in He. destruct (is_youtube_url e); [|by simplify_eq].
        destruct (e_id e); simpl in He; [|done].
        case_bool_decide; simplify_eq; [done|]. by destruct filtered. }
      destruct (Z.eqb_spec (Z.of_nat (length filtered')) 0) as [Hlen|_].
      * by destruct filtered'.
      * by apply IH.
    + intros [= <- <-]. right. by exists x.
Qed.

(** ** The progress adapter *)

Lemma or_else_truthyZ (o : option Z) : or_else (truthyZ o) 0 = or_else o 0.
Proof. destruct o as [z|]; simpl; [|done]. by destruct (Z.eqb_spec z 0). Qed.

(** C5. With a host callback installed and [prev_dl_bytes = 0], the events
    downloading(500 of 1000), finished(1000), downloading(200 of 2000) make
    three calls of the callback, with (500, 1, 1000), (1000, 1, 1000) and
    (1200, 1, 3000), whatever the other keys of the events hold.  On a
    downloading event without [total_bytes] the total is
    [total_bytes_estimate], and 0 when that is absent too. *)
Theorem progress_adapter_accumulates :
  (∀ url est1 total2 est2 est3,
     run_hook (set_reporthook (new_download url) true)
       [ {| d_status := Some "downloading"; d_downloaded_bytes := Some 500;
            d_total_bytes := Some 1000; d_total_bytes_estimate := est1 |};
         {| d_status := Some "finished"; d_downloaded_bytes := Some 1000;
            d_total_bytes := total2; d_total_bytes_estimate := est2 |};
         {| d_status := Some "downloading"; d_downloaded_bytes := Some 200;
            d_total_bytes := Some 2000; d_total_bytes_estimate := est3 |} ]
     = (Ok (),
        {| dl_url := url; dl_reporthook := true; dl_prev_dl_bytes := 1000;
           dl_reported := [(500, 1, 1000); (1000, 1, 1000); (1200, 1, 3000)] |}))
  ∧
  (∀ url prev reported dl_bytes est,
     _my_hook
       {| dl_url := url; dl_reporthook := true; dl_prev_dl_bytes := prev;
          dl_reported := reported |}
       {| d_status := Some "downloading"; d_downloaded_bytes := Some dl_bytes;
          d_total_bytes := None; d_total_bytes_estimate := est |}
     = Ok {| dl_url := url; dl_reporthook := true; dl_prev_dl_bytes := prev;
             dl_reported :=
               reported ++ [(prev + dl_bytes, 1, prev + or_else est 0)] |}).
Proof.
  split.
  - intros url est1 total2 est2 est3. reflexivity.
  - intros url prev reported dl_bytes est.
    unfold _my_hook, call_reporthook. simpl. by rewrite or_else_truthyZ.
Qed.

(** Without a host callback nothing is reported, and the counter still
    accumulates over the finished fragments. *)
Lemma progress_adapter_silent url :
  run_hook (new_download url)
    [ {| d_status := Some "downloading"; d_downloaded_bytes := Some 500;
         d_total_bytes := Some 1000; d_total_bytes_estimate := None |};
      {| d_status := Some "finished"; d_downloaded_bytes := Some 1000;
         d_total_bytes := None; d_total_bytes_estimate := None |} ]
  = (Ok (), {| dl_url := url; dl_reporthook := false;
               dl_prev_dl_bytes := 1000; dl_reported := [] |}).
Proof. reflexivity. Qed.

(** ** The repair of the output path *)

Lemma string_app_cons c (s t : string) : String c s +:+ t = String c (s +:+ t).
Proof. reflexivity. Qed.

Lemma string_app_nil_l (s : string) : "" +:+ s = s.
Proof. reflexivity. Qed.

Ltac string_simpl := rewrite ?string_app_cons, ?string_app_nil_l.

Lemma string_app_length (s t : string) :
  String.length (s +:+ t) = (String.length s + String.length t)%nat.
Proof.
  induction s as [|c s IH]; [done|]. rewrite string_app_cons. simpl.
  by rewrite IH.
Qed.

Lemma string_app_ne (s ext : string) : s +:+ "." +:+ ext ≠ s.
Proof.
  intros Heq. apply (f_equal String.length) in Heq.
  rewrite !string_app_length in Heq. simpl in Heq. lia.
Qed.

Section retrieve_facts.
Variable fetch_video :
  string → string → gmap string node →
  list hook_event * gmap string node * result fetch_info.
Variable mimetype_from_extension : string → string.

Lemma repair_path_moves (fs : gmap string node) tempname ext content :
  fs !! tempname = Some (RegularFile "") →
  fs !! (tempname +:+ "." +:+ ext) = Some (RegularFile content) →
  repair_path tempname ("." +:+ ext) fs
  = Ok (<[tempname := RegularFile content]>
          (delete (tempname +:+ "." +:+ ext) (delete tempname fs))).
Proof.
  intros Htmp Hext. unfold repair_path, os_stat_size.
  rewrite Htmp. simpl. unfold os_path_isfile. rewrite Hext.
  unfold os_remove. rewrite Htmp. simpl. unfold os_rename.
  rewrite lookup_delete_ne by (symmetry; apply string_app_ne).
  rewrite Hext. by rewrite lookup_delete_eq.
Qed.
End retrieve_facts.

(** C8. When the backend has returned with an extension [ext], leaving an
    empty regular file at [tempname] and a file with content at
    [tempname + '.' + ext], [retrieve_resume] returns normally and in the file
    system it leaves the content is at [tempname], nothing is at
    [tempname + '.' + ext], and every other path is as the backend left it. *)
Theorem retrieve_resume_repairs_path
    (fetch_video : string → string → gmap string node →
                   list hook_event * gmap string node * result fetch_info)
    (mimetype_from_extension : string → string)
    (self self' : YoutubeCustomDownload) (tempname : string)
    (reporthook : bool) (fs fs' : gmap string node)
    (res : fetch_info) (ext content : string) :
  fetch_stage fetch_video self tempname reporthook fs = (Ok res, self', fs') →
  res_ext res = Some ext →
  fs' !! tempname = Some (RegularFile "") →
  fs' !! (tempname +:+ "." +:+ ext) = Some (RegularFile content) →
  content ≠ "" →
  ∃ headers final_url fs'',
    retrieve_resume fetch_video mimetype_from_extension self tempname
      reporthook fs
    = (Ok (headers, final_url), self', fs'') ∧
    fs'' !! tempname = Some (RegularFile content) ∧
    0 < st_size_of (RegularFile content) ∧
    fs'' !! (tempname +:+ "." +:+ ext) = None ∧
    ∀ path, path ≠ tempname → path ≠ tempname +:+ "." +:+ ext →
      fs'' !! path = fs' !! path.
Proof.
  intros Hfetch Hext Htmp Hfile Hcontent. unfold retrieve_resume.
  rewrite Hfetch, Hext.
  rewrite (repair_path_moves _ _ _ _ Htmp Hfile).
  eexists _, _, _. split; [done|].
  pose proof (string_app_ne tempname ext) as Hne.
  split_and!.
  - by rewrite lookup_insert_eq.
  - destruct content; [done|]. simpl. lia.
  - rewrite lookup_insert_ne by done. by rewrite lookup_delete_eq.
  - intros path H1 H2.
    rewrite lookup_insert_ne, !lookup_delete_ne by done. done.
Qed.

Lemma retrieve_resume_repairs_path_witness :
  ∃ headers final_url fs'',
    retrieve_resume merging_fetch_video sample_mimetype
      (new_download "https://www.youtube.com/watch?v=a") "a.partial" true ∅
    = (Ok (headers, final_url),
       {| dl_url := "https://www.youtube.com/watch?v=a"; dl_reporthook := true;
          dl_prev_dl_bytes := 4; dl_reported := [(4, 1, 4)] |}, fs'') ∧
    fs'' !! "a.partial" = Some (RegularFile "data") ∧
    fs'' !! "a.partial.mp4" = None.
Proof.
  destruct (retrieve_resume_repairs_path merging_fetch_video sample_mimetype
              (new_download "https://www.youtube.com/watch?v=a")
              {| dl_url := "https://www.youtube.com/watch?v=a";
                 dl_reporthook := true; dl_prev_dl_bytes := 4;
                 dl_reported := [(4, 1, 4)] |}
              "a.partial" true ∅
              (<["a.partial" := RegularFile ""]>
                 (<["a.partial.mp4" := RegularFile "data"]> ∅))
              {| res_ext := Some "mp4"; res_url := None |} "mp4" "data")
    as (headers & final_url & fs'' & H1 & H2 & _ & H3 & _).
  - reflexivity.
  - reflexivity.
  - vm_compute. reflexivity.
  - vm_compute. reflexivity.
  - discriminate.
  - exists headers, final_url, fs''. split; [exact H1|]. split; [exact H2|exact H3].
Defined.

(** ** The feed resolver *)

Lemma extract_type_ok r t has_playlist :
  extract_type r = Ok (t, has_playlist) ↔
  t = or_else (ie_type r) "video" ∧
  (t = "url" ∧ has_playlist = false
   ∨ (t = "playlist" ∨ t = "multi_video") ∧ has_playlist = true).
Proof.
  unfold extract_type. set (t' := or_else (ie_type r) "video").
  case_bool_decide as Hin.
  - split; [done|]. intros [-> Ht]. exfalso. apply Hin.
    rewrite !elem_of_cons. tauto.
  - rewrite !elem_of_cons, elem_of_nil in Hin.
    split.
    + intros [= <- <-]. split; [done|].
      destruct Hin as [->|[->|[->|[]]]]; [left|right..]; auto.
    + intros [-> Ht]. f_equal. f_equal.
      destruct Ht as [[Ht ->]|[Ht ->]]; [rewrite Ht|]; [done|].
      apply bool_decide_eq_true. rewrite !elem_of_cons. tauto.
Qed.


Section resolver_facts.
Variable extract_info : string → option string → result extraction.
Variable sanitize_url : string → string.
Variable get_cover : string → option string.
Variable get_channel_desc : string → option string.

Abbreviation resolve_loop := (resolve_loop extract_info sanitize_url).
Abbreviation resolve := (resolve extract_info sanitize_url).

(** A turn of the loop on a [url] node whose target is recognized. *)
Lemma resolve_step_url r u r' t has_playlist :
  ie_url r = Some u →
  extract_info (sanitize_url u) (ie_ie_key r) = Ok r' →
  extract_type r' = Ok (t, has_playlist) →
  resolve_step extract_info sanitize_url r "url" = Ok (r', (t, has_playlist)).
Proof.
  intros Hu Hr' Ht. unfold resolve_step. rewrite Hu. simpl.
  rewrite Hr'. simpl. by rewrite Ht.
Qed.

Lemma resolve_step_type r t r' ty :
  resolve_step extract_info sanitize_url r t = Ok (r', ty) →
  extract_type r' = Ok ty.
Proof.
  unfold resolve_step, mbind, result_bind. intros Hstep.
  repeat case_match; by simplify_eq.
Qed.

(** The loop only ever ends normally on a playlist. *)
Lemma resolve_loop_playlist fuel r t has_playlist tree :
  extract_type r = Ok (t, has_playlist) →
  resolve_loop fuel r t has_playlist = Some (Ok tree) →
  ie_type tree = Some "playlist" ∨ ie_type tree = Some "multi_video".
Proof.
  revert r t has_playlist.
  induction fuel as [|fuel IH]; intros r t has_playlist Ht; simpl.
  - destruct has_playlist; [|done]. intros [= <-].
    apply extract_type_ok in Ht as [Ht [[_ ?]|[Hp _]]]; [done|].
    destruct (ie_type r) as [ty|]; simpl in *; intuition congruence.
  - destruct has_playlist.
    + intros [= <-].
      apply extract_type_ok in Ht as [Ht [[_ ?]|[Hp _]]]; [done|].
      destruct (ie_type r) as [ty|]; simpl in *; intuition congruence.
    + destruct (resolve_step _ _ r t) as [[r' [t' hp']]|x] eqn:Hstep; [|done].
      apply IH. by apply resolve_step_type in Hstep.
Qed.
End resolver_facts.

(** C6 (as the code has it). A chain url → url → playlist is followed to the
    playlist: every [url] node has its URL canonicalized and is extracted
    again with its own [ie_key], and two turns of the loop suffice.  A
    [url_transparent] node is not followed: [extract_type] rejects it, so on
    a chain that starts with one the resolver ends by raising the
    unsupported-result-type exception. *)
Theorem resolver_follows_url_only
    (extract_info : string → option string → result extraction)
    (sanitize_url : string → string)
    (get_cover get_channel_desc : string → option string)
    (url channel_url : string) (max_episodes : Z) (fuel : nat) :
  (∀ n1 n2 playlist u1 u2,
     extract_info url None = Ok n1 →
     ie_type n1 = Some "url" → ie_url n1 = Some u1 →
     extract_info (sanitize_url u1) (ie_ie_key n1) = Ok n2 →
     ie_type n2 = Some "url" → ie_url n2 = Some u2 →
     extract_info (sanitize_url u2) (ie_ie_key n2) = Ok playlist →
     ie_type playlist = Some "playlist" →
     (2 ≤ fuel)%nat →
     resolve extract_info sanitize_url fuel url = Some (Ok playlist) ∧
     refresh extract_info sanitize_url get_cover get_channel_desc fuel url
       channel_url max_episodes
     = Some (feed ← (new_YoutubeFeed url (get_cover channel_url)
                       (get_channel_desc channel_url) max_episodes playlist).1;
             Ok {| fr_status := UPDATED_FEED; fr_feed := feed |}))
  ∧
  (∀ n1,
     extract_info url None = Ok n1 →
     ie_type n1 = Some "url_transparent" →
     resolve extract_info sanitize_url fuel url
     = Some (Raise (UnsupportedResultType "url_transparent")) ∧
     refresh extract_info sanitize_url get_cover get_channel_desc fuel url
       channel_url max_episodes
     = Some (Raise (UnsupportedResultType "url_transparent"))).
Proof.
  split.
  - intros n1 n2 playlist u1 u2 H1 Ht1 Hu1 H2 Ht2 Hu2 H3 Ht3 Hfuel.
    assert (resolve extract_info sanitize_url fuel url = Some (Ok playlist))
      as Hres.
    { unfold resolve. rewrite H1.
      assert (extract_type n1 = Ok ("url", false)) as ->
        by (unfold extract_type; by rewrite Ht1).
      destruct fuel as [|[|fuel]]; [lia..|]. simpl.
      assert (extract_type n2 = Ok ("url", false)) as Hty2
        by (unfold extract_type; by rewrite Ht2).
      assert (extract_type playlist = Ok ("playlist", true)) as Hty3
        by (unfold extract_type; by rewrite Ht3).
      rewrite (resolve_step_url _ _ _ _ _ _ _ Hu1 H2 Hty2).
      rewrite (resolve_step_url _ _ _ _ _ _ _ Hu2 H3 Hty3).
      by destruct fuel. }
    split; [done|]. unfold refresh. by rewrite Hres.
  - intros n1 H1 Ht1.
    assert (resolve extract_info sanitize_url fuel url
            = Some (Raise (UnsupportedResultType "url_transparent"))) as Hres.
    { unfold resolve. rewrite H1. unfold extract_type. by rewrite Ht1. }
    split; [done|]. unfold refresh. by rewrite Hres.
Qed.


Lemma resolver_follows_url_only_witness :
  resolve (chain_backend "url") keep_url 2 channel_page
  = Some (Ok uploads_playlist)
  ∧ resolve (chain_backend "url_transparent") keep_url 2 channel_page
    = Some (Raise (UnsupportedResultType "url_transparent")).
Proof.
  split.
  - apply (proj1 (resolver_follows_url_only (chain_backend "url") keep_url
                    no_lookup no_lookup channel_page channel_page 0 2)
             (tree (Some "url") (Some videos_page) (Some "YoutubeChannel") None)
             (tree (Some "url") (Some uploads_page) (Some "YoutubePlaylist") None)
             uploads_playlist videos_page uploads_page);
      [reflexivity..|lia].
  - apply (proj2 (resolver_follows_url_only (chain_backend "url_transparent")
                    keep_url no_lookup no_lookup channel_page channel_page 0 2)
             (tree (Some "url_transparent") (Some videos_page)
                (Some "YoutubeChannel") None));
      reflexivity.
Defined.

(** On the chain url_transparent → url_transparent → playlist the resolver
    raises, whatever the bound on the number of turns: it does not return
    the playlist. *)
Lemma resolver_url_transparent_chain_raises :
  chain_backend "url_transparent" channel_page None
  = Ok (tree (Some "url_transparent") (Some videos_page)
          (Some "YoutubeChannel") None)
  ∧ chain_backend "url_transparent" (keep_url videos_page)
      (Some "YoutubeChannel")
    = Ok (tree (Some "url_transparent") (Some uploads_page)
            (Some "YoutubePlaylist") None)
  ∧ chain_backend "url_transparent" (keep_url uploads_page)
      (Some "YoutubePlaylist")
    = Ok uploads_playlist
  ∧ refresh (chain_backend "url_transparent") keep_url no_lookup no_lookup
      10 channel_page channel_page 0
    = Some (Raise (UnsupportedResultType "url_transparent"))
  ∧ ¬ ∃ fuel, resolve (chain_backend "url_transparent") keep_url fuel
                channel_page = Some (Ok uploads_playlist).
Proof.
  split_and!; [reflexivity..|]. intros [fuel Hres]. by destruct fuel.
Qed.



(** ** The date utility *)

Lemma digit_value_char c v :
  digit_value c = Some v → 0 ≤ v ≤ 9 ∧ c = digit_char v.
Proof.
  unfold digit_value, digit_char.
  destruct (Z.leb_spec 48 (Z.of_nat (nat_of_ascii c))); [|done].
  destruct (Z.leb_spec (Z.of_nat (nat_of_ascii c)) 57); [|done].
  simpl. intros [= <-]. split; [lia|].
  replace (Z.to_nat (Z.of_nat (nat_of_ascii c) - 48 + 48)) with (nat_of_ascii c)
    by lia.
  by rewrite ascii_nat_embedding.
Qed.

Lemma digit_char_value v : 0 ≤ v ≤ 9 → digit_value (digit_char v) = Some v.
Proof.
  intros Hv. unfold digit_value, digit_char.
  rewrite nat_ascii_embedding by lia.
  rewrite Z2Nat.id by lia.
  destruct (Z.leb_spec 48 (v + 48)); [|lia].
  destruct (Z.leb_spec (v + 48) 57); [|lia].
  simpl. f_equal. lia.
Qed.

Lemma digit_in_spec lo hi c v :
  digit_in lo hi c = Some v → lo ≤ v ≤ hi ∧ 0 ≤ v ≤ 9 ∧ c = digit_char v.
Proof.
  unfold digit_in. destruct (digit_value c) as [v'|] eqn:Hc; simpl; [|done].
  destruct (Z.leb_spec lo v'); [|done]. destruct (Z.leb_spec v' hi); [|done].
  simpl. intros [= <-]. apply digit_value_char in Hc. tauto.
Qed.

Lemma string_app_nil_r (s : string) : s +:+ "" = s.
Proof. induction s as [|c s IH]; [done|]. by rewrite string_app_cons, IH. Qed.

Lemma re_two_spec lo1 hi1 lo2 hi2 s v r :
  (v, r) ∈ re_two lo1 hi1 lo2 hi2 s →
  0 ≤ hi1 → hi1 ≤ 9 →
  10 * lo1 + lo2 ≤ v ≤ 10 * hi1 + hi2 ∧ s = fmt2 v +:+ r.
Proof.
  unfold re_two. destruct s as [|a [|b s]]; [by intros ?%elem_of_nil..|].
  destruct (digit_in lo1 hi1 a) as [v1|] eqn:Ha; [|by intros ?%elem_of_nil].
  destruct (digit_in lo2 hi2 b) as [v2|] eqn:Hb; [|by intros ?%elem_of_nil].
  intros [= -> ->]%list_elem_of_singleton ??.
  apply digit_in_spec in Ha as (? & ? & ->).
  apply digit_in_spec in Hb as (? & ? & ->).
  split; [lia|]. unfold fmt2. string_simpl.
  replace ((10 * v1 + v2) / 10) with v1 by (apply Z.div_unique with v2; lia).
  replace ((10 * v1 + v2) mod 10) with v2 by (apply Z.mod_unique with v1; lia).
  done.
Qed.

Lemma re_one_spec lo hi s v r :
  (v, r) ∈ re_one lo hi s → lo ≤ v ≤ hi ∧ 0 ≤ v ≤ 9 ∧ s = fmt1 v +:+ r.
Proof.
  unfold re_one. destruct s as [|a s]; [by intros ?%elem_of_nil|].
  destruct (digit_in lo hi a) as [v1|] eqn:Ha; [|by intros ?%elem_of_nil].
  intros [= -> ->]%list_elem_of_singleton.
  apply digit_in_spec in Ha as (? & ? & ->). done.
Qed.

Lemma re_space_one_spec lo hi s v r :
  (v, r) ∈ re_space_one lo hi s →
  lo ≤ v ≤ hi ∧ 0 ≤ v ≤ 9 ∧ s = (" " +:+ fmt1 v) +:+ r.
Proof.
  unfold re_space_one. destruct s as [|a s]; [by intros ?%elem_of_nil|].
  case_bool_decide as Ha; [|by intros ?%elem_of_nil]. subst a.
  intros (? & ? & ->)%re_one_spec. done.
Qed.

Lemma re_m_spec s m r :
  (m, r) ∈ re_m s → 1 ≤ m ≤ 12 ∧ ∃ ms, ms ∈ month_forms m ∧ s = ms +:+ r.
Proof.
  unfold re_m, month_forms. rewrite !elem_of_app.
  intros [H|[H|H]].
  - apply re_two_spec in H as [? ->]; [|lia..]. split; [lia|].
    exists (fmt2 m). split; [apply elem_of_cons; by left|done].
  - apply re_two_spec in H as [? ->]; [|lia..]. split; [lia|].
    exists (fmt2 m). split; [apply elem_of_cons; by left|done].
  - apply re_one_spec in H as (? & ? & ->). split; [lia|].
    exists (fmt1 m). split; [|done].
    destruct (Z.ltb_spec m 10); [|lia]. rewrite !elem_of_cons. auto.
Qed.

Lemma re_d_spec s d r :
  (d, r) ∈ re_d s → 1 ≤ d ≤ 31 ∧ ∃ ds, ds ∈ day_forms d ∧ s = ds +:+ r.
Proof.
  unfold re_d, day_forms. rewrite !elem_of_app.
  intros [H|[H|[H|[H|H]]]].
  - apply re_two_spec in H as [? ->]; [|lia..]. split; [lia|].
    exists (fmt2 d). split; [apply elem_of_cons; by left|done].
  - apply re_two_spec in H as [? ->]; [|lia..]. split; [lia|].
    exists (fmt2 d). split; [apply elem_of_cons; by left|done].
  - apply re_two_spec in H as [? ->]; [|lia..]. split; [lia|].
    exists (fmt2 d). split; [apply elem_of_cons; by left|done].
  - apply re_one_spec in H as (? & ? & ->). split; [lia|].
    exists (fmt1 d). split; [|done].
    destruct (Z.ltb_spec d 10); [|lia]. rewrite !elem_of_cons. auto.
  - apply re_space_one_spec in H as (? & ? & ->). split; [lia|].
    exists (" " +:+ fmt1 d). split; [|done].
    destruct (Z.ltb_spec d 10); [|lia]. rewrite !elem_of_cons. auto.
Qed.

Lemma re_Y_spec s y r :
  re_Y s = Some (y, r) → 0 ≤ y ≤ 9999 ∧ s = fmt4 y +:+ r.
Proof.
  unfold re_Y. destruct s as [|a [|b [|c [|d s]]]]; [done..|].
  destruct (digit_value a) as [va|] eqn:Ha; simpl; [|done].
  destruct (digit_value b) as [vb|] eqn:Hb; simpl; [|done].
  destruct (digit_value c) as [vc|] eqn:Hc; simpl; [|done].
  destruct (digit_value d) as [vd|] eqn:Hd; simpl; [|done].
  intros [= <- <-].
  apply digit_value_char in Ha as [? ->]. apply digit_value_char in Hb as [? ->].
  apply digit_value_char in Hc as [? ->]. apply digit_value_char in Hd as [? ->].
  split; [lia|]. unfold fmt4. string_simpl.
  set (y := 1000 * va + 100 * vb + 10 * vc + vd).
  replace (y / 1000) with va by (unfold y; apply Z.div_unique with (100 * vb + 10 * vc + vd); lia).
  replace (y mod 10) with vd by (unfold y; apply Z.mod_unique with (100 * va + 10 * vb + vc); lia).
  replace (y / 100) with (10 * va + vb) by (unfold y; apply Z.div_unique with (10 * vc + vd); lia).
  replace (y / 10) with (100 * va + 10 * vb + vc) by (unfold y; apply Z.div_unique with vd; lia).
  replace ((10 * va + vb) mod 10) with vb by (apply Z.mod_unique with va; lia).
  replace ((100 * va + 10 * vb + vc) mod 10) with vc by (apply Z.mod_unique with (10 * va + vb); lia).
  done.
Qed.

Lemma re_Y_fmt4 y r : 0 ≤ y ≤ 9999 → re_Y (fmt4 y +:+ r) = Some (y, r).
Proof.
  intros Hy. unfold re_Y, fmt4. string_simpl.
  rewrite !digit_char_value; simpl.
  - f_equal. f_equal. Z.to_euclidean_division_equations. lia.
  - Z.to_euclidean_division_equations. lia.
  - Z.to_euclidean_division_equations. lia.
  - Z.to_euclidean_division_equations. lia.
  - Z.to_euclidean_division_equations. lia.
Qed.

(** The month and day of every date written with two digits each are read
    back: 12 × 31 strings, by computation. *)
Lemma re_md_fmt2_table :
  Forall (λ m, Forall (λ d, re_md (fmt2 m +:+ fmt2 d) = Some (m, d, ""))
                 (seqZ 1 31))
         (seqZ 1 12).
Proof. apply (bool_decide_unpack _). vm_compute. exact I. Qed.

Lemma re_md_fmt2 m d :
  1 ≤ m ≤ 12 → 1 ≤ d ≤ 31 → re_md (fmt2 m +:+ fmt2 d) = Some (m, d, "").
Proof.
  intros Hm Hd. pose proof re_md_fmt2_table as Htable.
  rewrite Forall_forall in Htable.
  specialize (Htable m). rewrite elem_of_seqZ in Htable.
  specialize (Htable ltac:(lia)). rewrite Forall_forall in Htable.
  apply Htable. rewrite elem_of_seqZ. lia.
Qed.

Lemma valid_date_bounds y m d :
  valid_date y m d = true →
  1 ≤ y ≤ 9999 ∧ 1 ≤ m ≤ 12 ∧ 1 ≤ d ≤ 31 ∧ d ≤ days_in_month y m.
Proof.
  unfold valid_date. rewrite !andb_true_iff, !Z.leb_le.
  intros (((((? & ?) & ?) & ?) & ?) & Hd). split_and!; try done.
  etrans; [exact Hd|]. unfold days_in_month.
  repeat case_match; lia.
Qed.

Lemma strptime_format_Ymd y m d :
  valid_date y m d = true → strptime_Ymd (format_Ymd y m d) = Ok (midnight y m d).
Proof.
  intros Hv. pose proof (valid_date_bounds _ _ _ Hv) as (? & ? & ? & _).
  unfold strptime_Ymd, re_Ymd, format_Ymd.
  rewrite re_Y_fmt4 by lia. simpl.
  rewrite re_md_fmt2 by done. simpl. by rewrite Hv.
Qed.

(** Every admitted writing of a month and a day is read as [first_match]
    says: 12 × 31 dates in up to six writings, by computation. *)
Lemma re_md_forms_table :
  Forall (λ m,
    Forall (λ d,
      Forall (λ ms,
        Forall (λ ds, re_md (ms +:+ ds) = Some (first_match m d ms ds, ""))
          (day_forms d))
        (month_forms m))
      (seqZ 1 31))
    (seqZ 1 12).
Proof. apply (bool_decide_unpack _). vm_compute. exact I. Qed.

Lemma re_md_forms m d ms ds :
  1 ≤ m ≤ 12 → 1 ≤ d ≤ 31 → ms ∈ month_forms m → ds ∈ day_forms d →
  re_md (ms +:+ ds) = Some (first_match m d ms ds, "").
Proof.
  intros Hm Hd Hms Hds. pose proof re_md_forms_table as Htable.
  rewrite Forall_forall in Htable.
  specialize (Htable m). rewrite elem_of_seqZ in Htable.
  specialize (Htable ltac:(lia)). rewrite Forall_forall in Htable.
  specialize (Htable d). rewrite elem_of_seqZ in Htable.
  specialize (Htable ltac:(lia)). rewrite Forall_forall in Htable.
  specialize (Htable ms Hms). rewrite Forall_forall in Htable.
  by apply Htable.
Qed.

Lemma valid_date_first_match y m d ms ds :
  valid_date y m d = true →
  valid_date y (first_match m d ms ds).1 (first_match m d ms ds).2 = true.
Proof.
  intros Hv. pose proof (valid_date_bounds _ _ _ Hv) as (Hy & _ & Hd & _).
  unfold first_match.
  destruct (bool_decide (ms = fmt1 1) && bool_decide (ds = fmt2 d)
            && (d <? 30) && negb (d mod 10 =? 0)) eqn:Hc; [|done].
  apply andb_true_iff in Hc as [Hc Hz]. apply andb_true_iff in Hc as [_ Hlt].
  apply Z.ltb_lt in Hlt. apply negb_true_iff, Z.eqb_neq in Hz.
  assert (1 ≤ d mod 10 ≤ 9) as Hd' by (pose proof (Z.mod_pos_bound d 10); lia).
  assert (d / 10 = 0 ∨ d / 10 = 1 ∨ d / 10 = 2) as Hq
    by (Z.to_euclidean_division_equations; lia).
  cbn [fst snd]. unfold valid_date.
  rewrite !andb_true_iff, !Z.leb_le. split_and!; [lia..|].
  unfold days_in_month. repeat case_match; lia.
Qed.

Lemma strptime_forms y m d ms ds :
  valid_date y m d = true → ms ∈ month_forms m → ds ∈ day_forms d →
  strptime_Ymd (fmt4 y +:+ ms +:+ ds)
  = Ok (midnight y (first_match m d ms ds).1 (first_match m d ms ds).2).
Proof.
  intros Hv Hms Hds.
  pose proof (valid_date_bounds _ _ _ Hv) as (? & ? & ? & _).
  pose proof (valid_date_first_match y m d ms ds Hv) as Hv'.
  unfold strptime_Ymd, re_Ymd.
  rewrite re_Y_fmt4 by lia. simpl.
  rewrite (re_md_forms m d) by done.
  destruct (first_match m d ms ds) as [m' d']. simpl in *. by rewrite Hv'.
Qed.

(** A string that [strptime] converts is a year of four digits followed by
    one of the admitted forms of a month and of a day. *)
Lemma strptime_Ymd_ok s t :
  strptime_Ymd s = Ok t →
  ∃ y m d ms ds,
    valid_date y m d = true ∧ ms ∈ month_forms m ∧ ds ∈ day_forms d ∧
    s = fmt4 y +:+ ms +:+ ds ∧ t = midnight y m d.
Proof.
  unfold strptime_Ymd. destruct (re_Ymd s) as [[[[y m] d] rest]|] eqn:Hre; [|done].
  case_bool_decide as Hrest; [|done]. subst rest.
  destruct (valid_date y m d) eqn:Hv; [|done]. intros [= <-].
  unfold re_Ymd in Hre.
  destruct (re_Y s) as [[y' r]|] eqn:HY; simpl in Hre; [|done].
  destruct (re_md r) as [[[m' d'] r2]|] eqn:Hmd; simpl in Hre; [|done].
  assert (y' = y ∧ m' = m ∧ d' = d ∧ r2 = "") as (-> & -> & -> & ->)
    by (by simplify_eq).
  clear Hre. apply re_Y_spec in HY as [_ ->].
  unfold re_md in Hmd. apply head_Some_elem_of in Hmd.
  apply list_elem_of_bind in Hmd as ([m1 r1] & Hd & Hm).
  apply list_elem_of_bind in Hd as ([d1 r3] & Heq & Hd).
  apply list_elem_of_singleton in Heq.
  assert (m1 = m ∧ d1 = d ∧ r3 = "") as (-> & -> & ->) by (by simplify_eq).
  apply re_m_spec in Hm as (_ & ms & Hms & ->).
  apply re_d_spec in Hd as (_ & ds & Hds & ->).
  exists y, m, d, ms, ds. rewrite string_app_nil_r. done.
Qed.

Lemma strptime_Ymd_raise s x : strptime_Ymd s = Raise x → ∃ msg, x = ValueError msg.
Proof.
  unfold strptime_Ymd. repeat case_match; intros; simplify_eq; eauto.
Qed.

(** C9 (as the code has it). [youtube_parsedate] converts a date written
    with eight digits to the timestamp that [mktime] gives for its midnight,
    and returns 0 for [None] and for the empty string.  On any other string
    it raises [ValueError] unless the string is a year of four digits
    followed by a month and a day of a valid date in one of the forms that
    [strptime] admits (leading zero present, left out, or for the day
    replaced by a space).  Every such string is converted, never rejected:
    to the midnight of the date that [first_match] reads in it, which is the
    date it spells unless the month can take two digits. *)
Theorem youtube_parsedate_spec (mktime : struct_time → Z) :
  (∀ y m d, valid_date y m d = true →
            youtube_parsedate mktime (Some (format_Ymd y m d))
            = Ok (mktime (midnight y m d)))
  ∧ youtube_parsedate mktime (Some "20170920")
    = Ok (mktime {| tm_year := 2017; tm_mon := 9; tm_mday := 20;
                    tm_hour := 0; tm_min := 0; tm_sec := 0;
                    tm_wday := 2; tm_yday := 263; tm_isdst := -1 |})
  ∧ youtube_parsedate mktime (Some "") = Ok 0
  ∧ youtube_parsedate mktime None = Ok 0
  ∧ (∀ s, s ≠ "" →
          (∃ msg, youtube_parsedate mktime (Some s) = Raise (ValueError msg))
          ∨ ∃ y m d ms ds,
              valid_date y m d = true ∧
              ms ∈ month_forms m ∧ ds ∈ day_forms d ∧
              s = fmt4 y +:+ ms +:+ ds ∧
              youtube_parsedate mktime (Some s) = Ok (mktime (midnight y m d)))
  ∧ (∀ y m d ms ds,
        valid_date y m d = true → ms ∈ month_forms m → ds ∈ day_forms d →
        valid_date y (first_match m d ms ds).1 (first_match m d ms ds).2 = true
        ∧ youtube_parsedate mktime (Some (fmt4 y +:+ ms +:+ ds))
          = Ok (mktime (midnight y (first_match m d ms ds).1
                          (first_match m d ms ds).2))).
Proof.
  split_and!; [|done..| |].
  - intros y m d Hv. unfold youtube_parsedate.
    assert (truthyS (Some (format_Ymd y m d)) = Some (format_Ymd y m d)) as ->
      by done.
    by rewrite strptime_format_Ymd.
  - intros s Hs. unfold youtube_parsedate.
    assert (truthyS (Some s) = Some s) as -> by (by destruct s).
    destruct (strptime_Ymd s) as [t|x] eqn:Hp; simpl.
    + right. apply strptime_Ymd_ok in Hp as (y & m & d & ms & ds & ? & ? & ? & ? & ->).
      by exists y, m, d, ms, ds.
    + left. apply strptime_Ymd_raise in Hp as [msg ->]. by exists msg.
  - intros y m d ms ds Hv Hms Hds.
    split; [by apply valid_date_first_match|].
    unfold youtube_parsedate.
    assert (truthyS (Some (fmt4 y +:+ ms +:+ ds))
            = Some (fmt4 y +:+ ms +:+ ds)) as -> by done.
    by rewrite (strptime_forms y m d).
Qed.

Lemma youtube_parsedate_spec_witness :
  youtube_parsedate mktime_utc (Some "20170920") = Ok 1505865600
  ∧ ((∃ msg, youtube_parsedate mktime_utc (Some "2017x920")
             = Raise (ValueError msg))
     ∨ ∃ y m d ms ds,
         valid_date y m d = true ∧
         ms ∈ month_forms m ∧ ds ∈ day_forms d ∧
         "2017x920" = fmt4 y +:+ ms +:+ ds ∧
         youtube_parsedate mktime_utc (Some "2017x920")
         = Ok (mktime_utc (midnight y m d)))
  ∧ youtube_parsedate mktime_utc (Some "2017920")
    = Ok (mktime_utc (midnight 2017 9 20))
  ∧ youtube_parsedate mktime_utc (Some "2017101")
    = Ok (mktime_utc (midnight 2017 10 1)).
Proof.
  split_and!.
  - apply (proj1 (youtube_parsedate_spec mktime_utc) 2017 9 20). reflexivity.
  - apply (proj1 (proj2 (proj2 (proj2 (proj2
             (youtube_parsedate_spec mktime_utc))))) "2017x920").
    discriminate.
  - refine (proj2 (proj2 (proj2 (proj2 (proj2 (proj2
              (youtube_parsedate_spec mktime_utc)))))
              2017 9 20 "9" "20" _ _ _)).
    + reflexivity.
    + unfold month_forms. simpl. rewrite !elem_of_cons. right. left.
      reflexivity.
    + unfold day_forms. simpl. rewrite !elem_of_cons. left. reflexivity.
  - refine (proj2 (proj2 (proj2 (proj2 (proj2 (proj2
              (youtube_parsedate_spec mktime_utc)))))
              2017 1 1 "1" "01" _ _ _)).
    + reflexivity.
    + unfold month_forms. simpl. rewrite !elem_of_cons. right. left.
      reflexivity.
    + unfold day_forms. simpl. rewrite !elem_of_cons. left. reflexivity.
Defined.

(** A string of seven characters is converted, not rejected. *)
Lemma youtube_parsedate_accepts_unpadded :
  "2017920" ≠ ""
  ∧ is_YYYYMMDD "2017920" = false
  ∧ youtube_parsedate mktime_utc (Some "2017920") = Ok 1505865600
  ∧ youtube_parsedate mktime_utc (Some "2017920")
    = youtube_parsedate mktime_utc (Some "20170920").
Proof. split_and!; [discriminate|reflexivity..]. Qed.

(** ** The sync operation *)

Lemma trim_entries_take (max_episodes : Z) (entries : list entry) :
  trim_entries max_episodes entries
  = if max_episodes =? 0 then entries
    else take (Z.to_nat max_episodes) entries.
Proof.
  unfold trim_entries.
  assert (∀ k,
    omap (λ '(i, e),
            if (max_episodes =? 0) || (Z.of_nat i <? max_episodes)
            then Some e else None)
         (imap (λ i e, ((k + i)%nat, e)) entries)
    = if max_episodes =? 0 then entries
      else take (Z.to_nat max_episodes - k) entries) as Hgen.
  { induction entries as [|e entries IH]; intros k; simpl.
    - destruct (max_episodes =? 0); [done|]. by rewrite take_nil.
    - rewrite (imap_ext _ (λ i e, ((S k + i)%nat, e))) by (intros; simpl; f_equal; lia).
      rewrite IH. destruct (Z.eqb_spec max_episodes 0) as [->|Hne]; simpl.
      + done.
      + rewrite Nat.add_0_r.
        destruct (Z.ltb_spec (Z.of_nat k) max_episodes).
        * destruct (Z.to_nat max_episodes - k)%nat as [|n] eqn:Hn; [lia|].
          simpl. do 2 f_equal. lia.
        * replace (Z.to_nat max_episodes - k)%nat with 0%nat by lia.
          replace (Z.to_nat max_episodes - S k)%nat with 0%nat by lia.
          done. }
  specialize (Hgen 0%nat). rewrite Nat.sub_0_r in Hgen. exact Hgen.
Qed.

Lemma guid_set_spec entries :
  Forall (λ e, is_Some (e_guid e)) entries →
  ∃ guids, guid_set entries = Ok guids
           ∧ ∀ guid, guid ∈ guids ↔ Some guid ∈ e_guid <$> entries.
Proof.
  induction 1 as [|e entries [guid Hg] _ (guids & IH & Hguids)]; simpl.
  - exists ∅. split; [done|]. intros guid. rewrite elem_of_nil. set_solver.
  - rewrite Hg, IH. simpl. eexists. split; [done|].
    intros g. rewrite elem_of_union, elem_of_singleton, elem_of_cons, Hguids.
    intuition congruence.
Qed.

Lemma select_new_spec existing entries :
  Forall (λ e, is_Some (e_guid e)) entries →
  select_new existing entries = Ok (filter (λ e, is_new existing e) entries).
Proof.
  induction 1 as [|e entries [guid Hg] _ IH]; simpl; [done|].
  rewrite Hg, IH. simpl. rewrite filter_cons.
  assert (is_new existing e = bool_decide (guid ∉ existing)) as Hnew
    by (unfold is_new; by rewrite Hg).
  destruct (decide (is_new existing e)) as [Hd|Hd]; rewrite Hnew in Hd.
  - apply bool_decide_unpack in Hd. by rewrite bool_decide_false.
  - apply Is_true_false in Hd. apply bool_decide_eq_false in Hd.
    apply dec_stable in Hd. by rewrite bool_decide_true.
Qed.

Lemma filter_is_new_all existing (entries : list entry) :
  (∀ guid, Some guid ∈ e_guid <$> entries → guid ∉ existing) →
  Forall (λ e, is_Some (e_guid e)) entries →
  filter (λ e, is_new existing e) entries = entries.
Proof.
  intros Hnew Hall. induction Hall as [|e entries [guid Hg] _ IH]; [done|].
  rewrite filter_cons. rewrite decide_True.
  - f_equal. apply IH. intros g Hin. apply Hnew. simpl. apply elem_of_cons. auto.
  - unfold is_new. rewrite Hg. apply bool_decide_pack. apply Hnew.
    simpl. rewrite Hg. apply elem_of_cons. auto.
Qed.

Lemma guids_filter_is_new existing (entries : list entry) guid :
  Some guid ∈ e_guid <$> filter (λ e, is_new existing e) entries
  ↔ Some guid ∈ e_guid <$> entries ∧ guid ∉ existing.
Proof.
  rewrite !list_elem_of_fmap. split.
  - intros (e & Hg & [Hnew He]%list_elem_of_filter).
    split; [by exists e|]. unfold is_new in Hnew. rewrite <- Hg in Hnew.
    by apply bool_decide_unpack in Hnew.
  - intros [(e & Hg & He) Hnot]. exists e. split; [done|].
    apply list_elem_of_filter. split; [|done].
    unfold is_new. rewrite <- Hg. by apply bool_decide_pack.
Qed.

Lemma Forall_is_Some_fmap {A B} (f : A → option B) (l l' : list A) :
  f <$> l' = f <$> l →
  Forall (λ x, is_Some (f x)) l → Forall (λ x, is_Some (f x)) l'.
Proof.
  intros Heq Hl. rewrite Forall_forall in Hl |- *. intros x Hx.
  assert (f x ∈ f <$> l') as Hfx by (apply list_elem_of_fmap; eauto).
  rewrite Heq in Hfx. apply list_elem_of_fmap in Hfx as (y & -> & Hy). auto.
Qed.

Section sync_facts.
Variable refresh_entries : extraction → Z → list entry.
Variable mktime : struct_time → Z.
Variable remove_html_tags : string → string.
Variable mimetype_from_extension : string → string.
Variable gettext : string → string.
Variable link_urls : string → string.

Abbreviation build_episode :=
  (build_episode mktime remove_html_tags mimetype_from_extension gettext
     link_urls).
Abbreviation save_episodes :=
  (save_episodes mktime remove_html_tags mimetype_from_extension gettext
     link_urls).
Abbreviation get_new_episodes :=
  (get_new_episodes refresh_entries mktime remove_html_tags
     mimetype_from_extension gettext link_urls).

Lemma build_episode_ok en id t :
  e_id en = Some id →
  youtube_parsedate mktime (e_upload_date en) = Ok t →
  ∃ ep, build_episode en = Ok ep ∧ ep_guid ep = video_guid id.
Proof.
  intros Hid Ht. unfold build_episode. rewrite Hid. simpl.
  rewrite Ht. simpl. by eexists.
Qed.

Lemma build_episode_guid en ep :
  build_episode en = Ok ep → video_guid <$> e_id en = Some (ep_guid ep).
Proof.
  unfold build_episode. destruct (e_id en) as [id|]; simpl; [|done].
  destruct (youtube_parsedate mktime _); simpl; [|done]. by intros [= <-].
Qed.

Lemma save_episodes_ok entries episodes eps :
  Forall2 (λ en ep, build_episode en = Ok ep) entries eps →
  save_episodes entries episodes = (Ok (episodes ++ eps), episodes ++ eps).
Proof.
  intros Hall. revert episodes.
  induction Hall as [|en ep entries eps Hb _ IH]; intros episodes; simpl.
  - by rewrite app_nil_r.
  - rewrite Hb, IH, <- (assoc_L (++)). done.
Qed.

Lemma save_episodes_inv entries episodes eps saved :
  save_episodes entries episodes = (Ok eps, saved) →
  saved = eps ∧
  ∃ built, eps = episodes ++ built
           ∧ Forall2 (λ en ep, build_episode en = Ok ep) entries built.
Proof.
  revert episodes. induction entries as [|en entries IH]; intros episodes; simpl.
  - intros [= <- <-]. split; [done|]. exists []. by rewrite app_nil_r.
  - destruct (build_episode en) as [ep|] eqn:Hb; [|done].
    intros (-> & built & -> & Hbuilt)%IH. split; [done|].
    exists (ep :: built). rewrite <- (assoc_L (++)). split; [done|].
    by constructor.
Qed.

(** The first statements of [get_new_episodes], up to the call of the
    backend, for a feed whose entries all carry a guid. *)
Lemma get_new_episodes_unfold self all_entries existing :
  ie_entries (feed_ie_result self) = Some all_entries →
  Forall (λ e, is_Some (e_guid e))
    (trim_entries (feed_max_episodes self) all_entries) →
  ∃ all_seen_guids,
    let entries := trim_entries (feed_max_episodes self) all_entries in
    let new_entries := filter (λ e, is_new existing e) entries in
    let request := set_entries (feed_ie_result self) new_entries in
    let enriched := refresh_entries request (feed_max_episodes self) in
    (∀ guid, guid ∈ all_seen_guids ↔ Some guid ∈ e_guid <$> entries) ∧
    get_new_episodes self existing
    = {| so_result :=
           eps ← (save_episodes enriched []).1; Ok (eps, all_seen_guids);
         so_feed := set_feed_entries self enriched;
         so_refreshed := [request];
         so_saved := (save_episodes enriched []).2 |}.
Proof.
  intros Hentries Hguids.
  destruct (guid_set_spec _ Hguids) as (guids & Hset & Hmem).
  exists guids. split; [done|].
  unfold get_new_episodes. rewrite Hentries. simpl.
  rewrite Hset, (select_new_spec _ _ Hguids).
  by destruct (save_episodes _ _).
Qed.

(** C4. For a feed whose trimmed entries [a; b; c; d] carry the GUIDs
    [A; B; C; D], with [C] and [D] not among the known GUIDs [{A, B}]:
    [get_new_episodes] calls [refresh_entries] once, on the feed's tree
    with the entries [c; d]; it leaves the enriched entries in the feed;
    when an episode can be built from each enriched entry it returns these
    episodes, all saved, with the GUID set [{A, B, C, D}], and it never
    returns another GUID set.  The trimmed list is the whole list for the
    cap 0 and its first [max_episodes] entries for a positive cap. *)
Theorem get_new_episodes_new_entries (self : YoutubeFeed)
    (all_entries : list entry) (a b c d : entry) (A B C D : string) :
  ie_entries (feed_ie_result self) = Some all_entries →
  trim_entries (feed_max_episodes self) all_entries = [a; b; c; d] →
  e_guid a = Some A → e_guid b = Some B →
  e_guid c = Some C → e_guid d = Some D →
  C ≠ A → C ≠ B → D ≠ A → D ≠ B →
  let request := set_entries (feed_ie_result self) [c; d] in
  let enriched := refresh_entries request (feed_max_episodes self) in
  let out := get_new_episodes self {[A; B]} in
  so_refreshed out = [request] ∧
  ie_entries request = Some [c; d] ∧
  so_feed out = set_feed_entries self enriched ∧
  (∀ eps, Forall2 (λ en ep, build_episode en = Ok ep) enriched eps →
          so_result out = Ok (eps, {[A; B; C; D]}) ∧ so_saved out = eps) ∧
  (∀ eps guids, so_result out = Ok (eps, guids) → guids = {[A; B; C; D]}) ∧
  (feed_max_episodes self = 0 →
   trim_entries (feed_max_episodes self) all_entries = all_entries) ∧
  (0 < feed_max_episodes self →
   trim_entries (feed_max_episodes self) all_entries
   = take (Z.to_nat (feed_max_episodes self)) all_entries).
Proof.
  intros Hentries Htrim HA HB HC HD HCA HCB HDA HDB request enriched out.
  assert (Forall (λ e, is_Some (e_guid e))
            (trim_entries (feed_max_episodes self) all_entries)) as Hguids.
  { rewrite Htrim. repeat constructor; eauto. }
  destruct (get_new_episodes_unfold self all_entries {[A; B]} Hentries Hguids)
    as (guids & Hmem & Hout). simpl in Hmem, Hout. rewrite Htrim in Hmem, Hout.
  assert (filter (λ e, is_new {[A; B]} e) [a; b; c; d] = [c; d]) as Hnew.
  { rewrite !filter_cons, filter_nil. unfold is_new.
    rewrite HA, HB, HC, HD.
    rewrite decide_False
      by (rewrite bool_decide_false; [tauto|];
          rewrite elem_of_union, !elem_of_singleton; tauto).
    rewrite decide_False
      by (rewrite bool_decide_false; [tauto|];
          rewrite elem_of_union, !elem_of_singleton; tauto).
    rewrite decide_True
      by (rewrite bool_decide_true; [done|];
          rewrite elem_of_union, !elem_of_singleton; tauto).
    rewrite decide_True
      by (rewrite bool_decide_true; [done|];
          rewrite elem_of_union, !elem_of_singleton; tauto).
    done. }
  rewrite Hnew in Hout. fold request in Hout. fold enriched in Hout.
  assert (guids = {[A; B; C; D]}) as ->.
  { apply set_eq. intros g. rewrite Hmem. simpl. rewrite HA, HB, HC, HD.
    rewrite !elem_of_cons, elem_of_nil, !elem_of_union, !elem_of_singleton.
    intuition congruence. }
  subst out. rewrite Hout. simpl. split_and!; [done..| | | |].
  - intros eps Hbuilt.
    rewrite (save_episodes_ok _ [] _ Hbuilt). done.
  - intros eps guids.
    destruct (save_episodes enriched []) as [[eps'|x] saved]; simpl; [|done].
    by intros [= _ <-].
  - intros Hzero. rewrite trim_entries_take, Hzero. done.
  - intros Hpos. rewrite trim_entries_take.
    destruct (Z.eqb_spec (feed_max_episodes self) 0); [lia|done].
Qed.

Lemma build_all entries :
  Forall (λ en, is_Some (e_id en)) entries →
  Forall (λ en, ∃ t, youtube_parsedate mktime (e_upload_date en) = Ok t)
    entries →
  ∃ eps, Forall2 (λ en ep, build_episode en = Ok ep) entries eps.
Proof.
  induction 1 as [|en entries [id Hid] _ IH]; intros Hdates.
  - by exists [].
  - apply Forall_cons in Hdates as [[t Ht] Hdates].
    destruct (IH Hdates) as [eps Heps].
    destruct (build_episode_ok en id t Hid Ht) as (ep & Hep & _).
    exists (ep :: eps). by constructor.
Qed.

Lemma built_guids entries eps :
  Forall2 (λ en ep, build_episode en = Ok ep) entries eps →
  Some <$> (ep_guid <$> eps) = fmap video_guid <$> (e_id <$> entries).
Proof.
  induction 1 as [|en ep entries eps Hb _ IH]; [done|].
  rewrite !fmap_cons. by rewrite (build_episode_guid _ _ Hb), IH.
Qed.

(** C10 (as the code has it). [get_new_episodes] leaves in the feed only the
    (enriched) entries that were new for the call.  Under a backend that
    keeps the [id] and the [guid] of the entries it enriches and supplies
    upload dates that parse, for a feed whose entries carry an [id] and a
    [guid]: the first call returns the GUID set [all1] of the trimmed
    entries; a second call with the same known GUIDs returns the set
    [all1 ∖ existing], the GUIDs of the first call's new entries alone, sends
    these entries to the backend again, and creates and saves an episode
    for each of them a second time. *)
Theorem get_new_episodes_not_idempotent (self : YoutubeFeed)
    (all_entries : list entry) (existing : gset string) :
  ie_entries (feed_ie_result self) = Some all_entries →
  Forall (λ e, is_Some (e_guid e) ∧ is_Some (e_id e)) all_entries →
  (∀ r n, e_guid <$> refresh_entries r n
          = e_guid <$> or_else (ie_entries r) []) →
  (∀ r n, e_id <$> refresh_entries r n = e_id <$> or_else (ie_entries r) []) →
  (∀ r n, Forall (λ en, ∃ t, youtube_parsedate mktime (e_upload_date en) = Ok t)
            (refresh_entries r n)) →
  let new_entries :=
    filter (λ e, is_new existing e)
      (trim_entries (feed_max_episodes self) all_entries) in
  let out1 := get_new_episodes self existing in
  let out2 := get_new_episodes (so_feed out1) existing in
  ∃ eps1 eps2 all1 entries1,
    so_result out1 = Ok (eps1, all1) ∧ so_saved out1 = eps1 ∧
    (∀ guid, guid ∈ all1 ↔
             Some guid ∈ e_guid <$> trim_entries (feed_max_episodes self)
                                      all_entries) ∧
    ie_entries (feed_ie_result (so_feed out1)) = Some entries1 ∧
    e_guid <$> entries1 = e_guid <$> new_entries ∧
    (∀ guid, Some guid ∈ e_guid <$> entries1 → guid ∉ existing) ∧
    so_result out2 = Ok (eps2, all1 ∖ existing) ∧ so_saved out2 = eps2 ∧
    (∀ guid, guid ∈ all1 ∖ existing ↔ Some guid ∈ e_guid <$> new_entries) ∧
    so_refreshed out2 = [feed_ie_result (so_feed out1)] ∧
    ep_guid <$> eps2 = ep_guid <$> eps1 ∧
    length eps2 = length new_entries.
Proof.
  intros Hentries Hwf Hkeep_guid Hkeep_id Hdates new_entries out1 out2.
  set (max_episodes := feed_max_episodes self) in *.
  set (entries := trim_entries max_episodes all_entries) in *.
  assert (Forall (λ e, is_Some (e_guid e) ∧ is_Some (e_id e)) entries) as Hwf'.
  { unfold entries. rewrite trim_entries_take.
    destruct (max_episodes =? 0); [done|]. by apply Forall_take. }
  assert (Forall (λ e, is_Some (e_guid e)) entries) as Hguids
    by (eapply Forall_impl; [exact Hwf'|]; simpl; tauto).
  assert (Forall (λ e, is_Some (e_guid e) ∧ is_Some (e_id e)) new_entries)
    as Hwf_new.
  { unfold new_entries. rewrite Forall_forall in Hwf' |- *.
    intros e [_ He]%list_elem_of_filter. auto. }
  (* the first call *)
  destruct (get_new_episodes_unfold self all_entries existing Hentries Hguids)
    as (all1 & Hall1 & Hout1). simpl in Hall1, Hout1.
  fold max_episodes entries new_entries in Hall1, Hout1.
  set (request1 := set_entries (feed_ie_result self) new_entries) in *.
  set (enriched1 := refresh_entries request1 max_episodes) in *.
  assert (e_guid <$> enriched1 = e_guid <$> new_entries) as Hg1
    by (unfold enriched1; by rewrite Hkeep_guid).
  assert (e_id <$> enriched1 = e_id <$> new_entries) as Hi1
    by (unfold enriched1; by rewrite Hkeep_id).
  assert (Forall (λ e, is_Some (e_guid e)) enriched1) as Hguids1.
  { apply (Forall_is_Some_fmap e_guid new_entries); [done|].
    eapply Forall_impl; [exact Hwf_new|]. simpl. tauto. }
  assert (Forall (λ e, is_Some (e_id e)) enriched1) as Hids1.
  { apply (Forall_is_Some_fmap e_id new_entries); [done|].
    eapply Forall_impl; [exact Hwf_new|]. simpl. tauto. }
  destruct (build_all enriched1 Hids1 (Hdates _ _)) as [eps1 Heps1].
  assert (∀ guid, Some guid ∈ e_guid <$> enriched1 → guid ∉ existing) as Hne.
  { intros guid. rewrite Hg1. unfold new_entries.
    rewrite guids_filter_is_new. tauto. }
  (* the second call, on the feed the first one leaves *)
  set (self1 := set_feed_entries self enriched1) in *.
  assert (so_feed out1 = self1) as Hfeed1 by (subst out1; by rewrite Hout1).
  assert (trim_entries max_episodes enriched1 = enriched1) as Htrim1.
  { rewrite trim_entries_take.
    destruct (Z.eqb_spec max_episodes 0) as [|Hmax]; [done|].
    apply take_ge.
    apply (f_equal length) in Hg1. rewrite !length_fmap in Hg1. rewrite Hg1.
    unfold new_entries. etrans; [apply length_filter|].
    unfold entries. rewrite trim_entries_take.
    destruct (Z.eqb_spec max_episodes 0); [done|].
    rewrite length_take. lia. }
  assert (ie_entries (feed_ie_result self1) = Some enriched1) as Hentries1
    by done.
  assert (Forall (λ e, is_Some (e_guid e))
            (trim_entries (feed_max_episodes self1) enriched1)) as Hguids1'.
  { simpl. fold max_episodes. by rewrite Htrim1. }
  destruct (get_new_episodes_unfold self1 enriched1 existing Hentries1 Hguids1')
    as (all2 & Hall2 & Hout2). simpl in Hall2, Hout2.
  fold max_episodes in Hall2, Hout2.
  rewrite Htrim1 in Hall2, Hout2.
  rewrite (filter_is_new_all existing enriched1 Hne Hguids1) in Hout2.
  change (set_entries (set_entries (feed_ie_result self) enriched1) enriched1)
    with (feed_ie_result self1) in Hout2.
  set (enriched2 := refresh_entries (feed_ie_result self1) max_episodes) in *.
  assert (e_id <$> enriched2 = e_id <$> enriched1) as Hi2
    by (unfold enriched2; by rewrite Hkeep_id).
  assert (Forall (λ e, is_Some (e_id e)) enriched2) as Hids2
    by (by apply (Forall_is_Some_fmap e_id enriched1)).
  destruct (build_all enriched2 Hids2 (Hdates _ _)) as [eps2 Heps2].
  assert (all2 = all1 ∖ existing) as ->.
  { apply set_eq. intros guid.
    rewrite Hall2, Hg1, elem_of_difference, Hall1. unfold new_entries.
    by rewrite guids_filter_is_new. }
  exists eps1, eps2, all1, enriched1.
  subst out2. rewrite Hfeed1, Hout2. subst out1. rewrite Hout1. simpl.
  rewrite (save_episodes_ok _ [] _ Heps1), (save_episodes_ok _ [] _ Heps2).
  simpl. split_and!; try done.
  - intros guid. rewrite elem_of_difference, Hall1. unfold new_entries.
    by rewrite guids_filter_is_new.
  - apply (inj (fmap Some)).
    rewrite (built_guids _ _ Heps1), (built_guids _ _ Heps2). by rewrite Hi2.
  - apply Forall2_length in Heps2. rewrite <- Heps2.
    apply (f_equal length) in Hi2, Hi1. rewrite !length_fmap in Hi2, Hi1.
    lia.
Qed.
End sync_facts.

Lemma get_new_episodes_new_entries_witness :
  so_refreshed
    (get_new_episodes sample_refresh_entries mktime_utc keep_text
       sample_mimetype keep_text keep_text sample_feed
       {[video_guid "a"; video_guid "b"]})
  = [set_entries (feed_ie_result sample_feed)
       [set_guid (video_entry "c") (video_guid "c");
        set_guid (video_entry "d") (video_guid "d")]].
Proof.
  destruct (get_new_episodes_new_entries sample_refresh_entries mktime_utc
              keep_text sample_mimetype keep_text keep_text sample_feed
              (first_occurrences
                 [video_entry "a"; video_entry "b"; video_entry "c";
                  video_entry "d"])
              (set_guid (video_entry "a") (video_guid "a"))
              (set_guid (video_entry "b") (video_guid "b"))
              (set_guid (video_entry "c") (video_guid "c"))
              (set_guid (video_entry "d") (video_guid "d"))
              (video_guid "a") (video_guid "b") (video_guid "c")
              (video_guid "d"))
    as (H & _); [reflexivity..|discriminate|discriminate|discriminate|discriminate|].
  exact H.
Defined.

Lemma sample_refresh_keeps_guid r n :
  e_guid <$> sample_refresh_entries r n = e_guid <$> or_else (ie_entries r) [].
Proof. unfold sample_refresh_entries. by rewrite <- list_fmap_compose. Qed.

Lemma sample_refresh_keeps_id r n :
  e_id <$> sample_refresh_entries r n = e_id <$> or_else (ie_entries r) [].
Proof. unfold sample_refresh_entries. by rewrite <- list_fmap_compose. Qed.

Lemma sample_refresh_dates r n :
  Forall (λ en, ∃ t, youtube_parsedate mktime_utc (e_upload_date en) = Ok t)
    (sample_refresh_entries r n).
Proof.
  unfold sample_refresh_entries. apply Forall_fmap, Forall_true.
  intros e. by eexists.
Qed.

Lemma get_new_episodes_not_idempotent_witness :
  ∃ eps2 all1,
    so_result
      (get_new_episodes sample_refresh_entries mktime_utc keep_text
         sample_mimetype keep_text keep_text
         (so_feed
            (get_new_episodes sample_refresh_entries mktime_utc keep_text
               sample_mimetype keep_text keep_text sample_feed
               {[video_guid "a"; video_guid "b"]}))
         {[video_guid "a"; video_guid "b"]})
    = Ok (eps2, all1 ∖ {[video_guid "a"; video_guid "b"]})
    ∧ length eps2 = 2%nat.
Proof.
  destruct (get_new_episodes_not_idempotent sample_refresh_entries mktime_utc
              keep_text sample_mimetype keep_text keep_text sample_feed
              (first_occurrences
                 [video_entry "a"; video_entry "b"; video_entry "c";
                  video_entry "d"])
              {[video_guid "a"; video_guid "b"]})
    as (eps1 & eps2 & all1 & entries1 & _ & _ & _ & _ & _ & _ & H & _ & _ & _ & _ & Hlen).
  - reflexivity.
  - vm_compute. repeat constructor; eexists; reflexivity.
  - exact sample_refresh_keeps_guid.
  - exact sample_refresh_keeps_id.
  - exact sample_refresh_dates.
  - exists eps2, all1. split; [exact H|]. rewrite Hlen. vm_compute. reflexivity.
Defined.

(** Under a backend that returns freshly extracted dictionaries the first
    call succeeds and saves two episodes, and the second call raises
    [KeyError] on the key [guid]: it returns no GUID set and saves nothing. *)
Lemma get_new_episodes_second_call_raises :
  (∃ eps all1,
     so_result
       (get_new_episodes extracting_refresh_entries mktime_utc keep_text
          sample_mimetype keep_text keep_text sample_feed
          {[video_guid "a"; video_guid "b"]})
     = Ok (eps, all1) ∧ length eps = 2%nat)
  ∧ so_result
      (get_new_episodes extracting_refresh_entries mktime_utc keep_text
         sample_mimetype keep_text keep_text
         (so_feed
            (get_new_episodes extracting_refresh_entries mktime_utc keep_text
               sample_mimetype keep_text keep_text sample_feed
               {[video_guid "a"; video_guid "b"]}))
         {[video_guid "a"; video_guid "b"]})
    = Raise (KeyError "guid")
  ∧ so_saved
      (get_new_episodes extracting_refresh_entries mktime_utc keep_text
         sample_mimetype keep_text keep_text
         (so_feed
            (get_new_episodes extracting_refresh_entries mktime_utc keep_text
               sample_mimetype keep_text keep_text sample_feed
               {[video_guid "a"; video_guid "b"]}))
         {[video_guid "a"; video_guid "b"]})
    = [].
Proof.
  split_and!.
  - eexists _, _. split; vm_compute; reflexivity.
  - vm_compute. reflexivity.
  - vm_compute. reflexivity.
Qed.

(** * Further properties *)

(** ** The filter / dedup engine, continued *)

Lemma video_guid_inj id1 id2 : video_guid id1 = video_guid id2 → id1 = id2.
Proof. unfold video_guid. apply (inj (String.app _)). Qed.

Lemma is_youtube_url_set_guid e guid :
  is_youtube_url (set_guid e guid) = is_youtube_url e.
Proof. reflexivity. Qed.

Lemma derived_guid_Some e guid :
  derived_guid e = Some guid →
  is_youtube_url e = true ∧ ∃ id, e_id e = Some id ∧ guid = video_guid id.
Proof.
  unfold derived_guid. destruct (is_youtube_url e); [|done].
  destruct (e_id e) as [id|]; [|done]. intros [= <-]. eauto.
Qed.

(** What [_process_entries] returns, for any cap. *)
Lemma process_entries_ok max_episodes entries out :
  (_process_entries max_episodes entries).1 = Ok out →
  ∃ consumed,
    entries = consumed ++ (_process_entries max_episodes entries).2 ∧
    out = first_occurrences consumed ∧
    ((_process_entries max_episodes entries).2 = []
     ∨ Z.of_nat (length out) = max_episodes) ∧
    ∀ read, read `prefix_of` consumed → read ≠ consumed → read ≠ [] →
      Z.of_nat (length (first_occurrences read)) ≠ max_episodes.
Proof.
  destruct (_process_entries max_episodes entries) as [r rest] eqn:Hrun.
  simpl. intros ->. unfold _process_entries in Hrun.
  destruct (process_loop_spec _ _ _ _ _ _ _ loop_inv_nil Hrun)
    as (consumed & -> & [-> Hr] & Hpre). simpl in *.
  exists consumed. split; [done|]. split; [done|]. split; [|done].
  destruct Hr as [[-> _]|(? & ? & _ & ?)]; auto.
Qed.

Lemma first_occurrences_wf earlier es :
  Forall (λ x, is_youtube_url x = true
               ∧ ∃ id, e_id x = Some id ∧ e_guid x = Some (video_guid id))
    (first_occurrences_from earlier es).
Proof.
  apply Forall_forall. intros x Hx.
  apply elem_of_first_occurrences_from in Hx as (e & guid & _ & Hd & -> & _).
  apply derived_guid_Some in Hd as (Hy & id & Hid & ->).
  split; [done|]. by exists id.
Qed.

Lemma guids_of_wf (l : list entry) :
  Forall (λ x, is_youtube_url x = true
               ∧ ∃ id, e_id x = Some id ∧ e_guid x = Some (video_guid id)) l →
  e_guid <$> l = fmap video_guid <$> (e_id <$> l).
Proof.
  induction 1 as [|x l (_ & id & Hid & Hg) _ IH]; [done|].
  rewrite !fmap_cons, Hg, Hid, IH. done.
Qed.

(** X1. Every entry that [_process_entries] emits passed the type test,
    has an [id], and carries the guid ['yt:video:' + id]; no two emitted
    entries have the same [id]. *)
Theorem process_entries_output_wf (max_episodes : Z) (entries out : list entry) :
  (_process_entries max_episodes entries).1 = Ok out →
  Forall (λ x, is_youtube_url x = true
               ∧ ∃ id, e_id x = Some id ∧ e_guid x = Some (video_guid id)) out
  ∧ NoDup (e_id <$> out).
Proof.
  intros (consumed & _ & -> & _)%process_entries_ok.
  pose proof (first_occurrences_wf [] consumed) as Hwf.
  split; [done|].
  pose proof (NoDup_guids_first_occurrences_from [] consumed) as Hnd.
  fold (first_occurrences consumed) in Hwf, Hnd.
  rewrite (guids_of_wf _ Hwf) in Hnd. by apply NoDup_fmap_1 in Hnd.
Qed.

Lemma process_entries_output_wf_witness :
  NoDup (e_id <$> [set_guid (video_entry "a") (video_guid "a");
                   set_guid (video_entry "b") (video_guid "b")]).
Proof.
  apply (process_entries_output_wf 2
           [video_entry "a"; playlist_link "p"; video_entry "a";
            video_entry "b"; video_entry "c"]).
  reflexivity.
Defined.

Lemma process_entries_length_le N entries out :
  0 < N → (_process_entries N entries).1 = Ok out →
  Z.of_nat (length out) ≤ N.
Proof.
  intros HN (consumed & _ & -> & _ & Hpre)%process_entries_ok.
  pose proof (below_cap N consumed HN Hpre) as Hlt.
  destruct consumed as [|e0 consumed0] using rev_ind; [simpl; lia|].
  pose proof (length_first_occurrences_snoc consumed0 e0).
  assert (Z.of_nat (length (first_occurrences consumed0)) < N); [|lia].
  apply Hlt; [by apply prefix_app_r|].
  intros Heq. apply (f_equal length) in Heq. rewrite length_app in Heq.
  simpl in Heq. lia.
Qed.

(** The loop on entries that are already tagged and pairwise distinct: all
    are kept, and the loop stops early only when the cap is met. *)
Lemma process_loop_tagged max_episodes l filtered seen :
  Forall (λ x, ∃ guid, derived_guid x = Some guid ∧ set_guid x guid = x
                       ∧ guid ∉ seen) l →
  NoDup (derived_guid <$> l) →
  (∀ k, (0 < k < length l)%nat →
        Z.of_nat (length filtered + k) ≠ max_episodes) →
  process_loop max_episodes l filtered seen = (Ok (filtered ++ l), []).
Proof.
  revert filtered seen.
  induction l as [|x l IH]; intros filtered seen Hl Hnd Hcap; simpl.
  - by rewrite app_nil_r.
  - apply Forall_cons in Hl as [(guid & Hg & Hx & Hseen) Hl].
    rewrite fmap_cons in Hnd. apply NoDup_cons in Hnd as [Hnotin Hnd].
    apply derived_guid_Some in Hg as Hg'. destruct Hg' as (Hy & id & Hid & ->).
    unfold process_entry. rewrite Hy, Hid. simpl.
    rewrite bool_decide_false by done. rewrite Hx.
    destruct l as [|y l].
    { simpl. by destruct (_ =? _). }
    destruct (Z.eqb_spec (Z.of_nat (length (filtered ++ [x]))) max_episodes)
      as [Hstop|_].
    { exfalso. apply (Hcap 1%nat); [simpl; lia|].
      rewrite length_app in Hstop. simpl in Hstop. lia. }
    rewrite IH, <- (assoc_L (++)); [done| |done|].
    + rewrite Forall_forall in Hl |- *.
      intros z Hz. destruct (Hl z Hz) as (g & Hdz & Hzz & Hzs).
      exists g. split_and!; [done..|].
      rewrite elem_of_union, elem_of_singleton. intros [?| ->]; [done|].
      apply Hnotin. rewrite Hg, <- Hdz. apply list_elem_of_fmap. by exists z.
    + intros k Hk. rewrite length_app. simpl.
      replace (Z.of_nat (length filtered + 1 + k))
        with (Z.of_nat (length filtered + S k)) by lia.
      apply Hcap. simpl in *. lia.
Qed.

(** X2. Filtering is idempotent: the output of [_process_entries], given
    back to it under the same cap, is returned unchanged and read to its
    end. *)
Theorem process_entries_idempotent (max_episodes : Z) (entries out : list entry) :
  (_process_entries max_episodes entries).1 = Ok out →
  _process_entries max_episodes out = (Ok out, []).
Proof.
  intros Hout.
  destruct (process_entries_ok _ _ _ Hout) as (consumed & _ & Hfo & _).
  pose proof (first_occurrences_wf [] consumed) as Hwf.
  fold (first_occurrences consumed) in Hwf. rewrite <- Hfo in Hwf.
  assert (Forall (λ x, derived_guid x = e_guid x) out) as Hdg.
  { eapply Forall_impl; [exact Hwf|]. simpl.
    intros x (Hy & id & Hid & Hg). unfold derived_guid.
    by rewrite Hy, Hid, Hg. }
  unfold _process_entries. apply (process_loop_tagged _ _ [] ∅).
  - rewrite Forall_forall in Hwf, Hdg |- *. intros x Hx.
    destruct (Hwf x Hx) as (Hy & id & Hid & Hg).
    exists (video_guid id). split_and!.
    + by rewrite (Hdg x Hx).
    + destruct x; simpl in *. by rewrite Hg.
    + apply not_elem_of_empty.
  - assert (derived_guid <$> out = e_guid <$> out) as ->.
    { clear -Hdg. induction Hdg as [|x l Hx _ IH]; [done|].
      by rewrite !fmap_cons, Hx, IH. }
    rewrite Hfo. apply NoDup_guids_first_occurrences_from.
  - intros k Hk. simpl.
    destruct (Z.lt_ge_cases 0 max_episodes) as [Hpos|Hneg]; [|lia].
    pose proof (process_entries_length_le _ _ _ Hpos Hout). lia.
Qed.

Lemma process_entries_idempotent_witness :
  _process_entries 2 [set_guid (video_entry "a") (video_guid "a");
                      set_guid (video_entry "b") (video_guid "b")]
  = (Ok [set_guid (video_entry "a") (video_guid "a");
         set_guid (video_entry "b") (video_guid "b")], []).
Proof.
  apply (process_entries_idempotent 2
           [video_entry "a"; playlist_link "p"; video_entry "a";
            video_entry "b"; video_entry "c"]).
  reflexivity.
Defined.

(** X3. Without a positive cap the whole listing is read, provided the cap
    is negative or the first entry is accepted: when every entry of the
    video type has an [id], [_process_entries] returns the first occurrences
    of the whole input and leaves nothing in the generator. *)
Theorem process_entries_unlimited (max_episodes : Z) (entries : list entry) :
  max_episodes ≤ 0 →
  (max_episodes < 0
   ∨ ∃ e es guid, entries = e :: es ∧ derived_guid e = Some guid) →
  Forall (λ e, is_youtube_url e = true → is_Some (e_id e)) entries →
  _process_entries max_episodes entries
  = (Ok (first_occurrences entries), []).
Proof.
  intros Hmax Hfirst Hids.
  destruct (_process_entries max_episodes entries) as [r rest] eqn:Hrun.
  unfold _process_entries in Hrun.
  destruct (process_loop_spec _ _ _ _ _ _ _ loop_inv_nil Hrun)
    as (consumed & -> & Hr & _). simpl in Hr.
  destruct r as [out|x].
  - destruct Hr as [-> [[-> _]|(read & e & -> & Hlen)]].
    + by rewrite app_nil_r.
    + exfalso. destruct Hfirst as [?|(e0 & es & guid & Heq & Hg)]; [lia|].
      assert (first_occurrences (read ++ [e]) = []) as Hnil
        by (apply length_zero_iff_nil; lia).
      assert (∃ tl, read ++ [e] = e0 :: tl) as [tl Htl].
      { destruct read as [|r0 read]; simpl in Heq; simplify_eq; eauto. }
      rewrite Htl in Hnil. unfold first_occurrences in Hnil. simpl in Hnil.
      rewrite Hg in Hnil. simpl in Hnil. done.
  - exfalso. destruct Hr as (_ & read & e & -> & Hy & Hid).
    rewrite Forall_forall in Hids.
    destruct (Hids e) as [id Hid']; [|done|congruence].
    rewrite !elem_of_app, list_elem_of_singleton. auto.
Qed.

Lemma process_entries_unlimited_witness :
  _process_entries 0 [video_entry "a"; playlist_link "p"; video_entry "a";
                      video_entry "b"]
  = (Ok (first_occurrences
           [video_entry "a"; playlist_link "p"; video_entry "a";
            video_entry "b"]), []).
Proof.
  apply process_entries_unlimited.
  - lia.
  - right. exists (video_entry "a"),
      [playlist_link "p"; video_entry "a"; video_entry "b"], (video_guid "a").
    split; reflexivity.
  - repeat constructor; intros _; eexists; reflexivity.
Defined.

(** ** The date utility, continued *)

Lemma length_month_forms m ms :
  ms ∈ month_forms m → (1 ≤ String.length ms ≤ 2)%nat.
Proof.
  unfold month_forms. rewrite elem_of_cons.
  destruct (m <? 10); rewrite ?elem_of_cons, ?elem_of_nil;
    intros H; destruct_or!; subst; simpl; try lia; done.
Qed.

Lemma length_day_forms d ds :
  ds ∈ day_forms d → (1 ≤ String.length ds ≤ 2)%nat.
Proof.
  unfold day_forms. rewrite elem_of_cons.
  destruct (d <? 10); rewrite ?elem_of_cons, ?elem_of_nil;
    intros H; destruct_or!; subst; simpl; try lia; done.
Qed.

(** X4. [youtube_parsedate] raises [ValueError] on every non-empty string of
    fewer than six or more than eight characters, whatever the characters
    are: a date with a time, a separator or a trailing newline is never
    converted. *)
Theorem youtube_parsedate_length (mktime : struct_time → Z) (s : string) :
  s ≠ "" →
  (String.length s < 6 ∨ 8 < String.length s)%nat →
  ∃ msg, youtube_parsedate mktime (Some s) = Raise (ValueError msg).
Proof.
  intros Hs Hlen. unfold youtube_parsedate.
  assert (truthyS (Some s) = Some s) as -> by (by destruct s).
  destruct (strptime_Ymd s) as [t|x] eqn:Hp; simpl.
  - exfalso.
    apply strptime_Ymd_ok in Hp as (y & m & d & ms & ds & _ & Hm & Hd & -> & _).
    apply length_month_forms in Hm. apply length_day_forms in Hd.
    rewrite !string_app_length in Hlen. simpl in Hlen. lia.
  - apply strptime_Ymd_raise in Hp as [msg ->]. by exists msg.
Qed.

Lemma youtube_parsedate_length_witness :
  ∃ msg, youtube_parsedate mktime_utc (Some "2017-09-20")
         = Raise (ValueError msg).
Proof.
  apply youtube_parsedate_length; [discriminate|]. right. simpl. lia.
Defined.

(** ** The progress adapter, continued *)

(** X5. [_my_hook] raises exactly when the event has no [status]
    ([KeyError('status')]), or when it has no [downloaded_bytes] and is a
    finished event or a downloading event with a host callback installed
    ([KeyError('downloaded_bytes')]).  Error events and events of unknown
    status never raise. *)
Theorem my_hook_raises (self : YoutubeCustomDownload) (d : hook_event) (x : exn) :
  _my_hook self d = Raise x ↔
  (d_status d = None ∧ x = KeyError "status")
  ∨ (d_downloaded_bytes d = None ∧ x = KeyError "downloaded_bytes"
     ∧ (d_status d = Some "finished"
        ∨ d_status d = Some "downloading" ∧ dl_reporthook self = true)).
Proof.
  unfold _my_hook. destruct (d_status d) as [status|]; simpl.
  - case_bool_decide as Hdl; [subst status|case_bool_decide as Hfin].
    + destruct (dl_reporthook self);
        destruct (d_downloaded_bytes d); simpl; split; try done;
        try (intros [= <-]; right; auto);
        intros [[? _]|(? & ? & [?|[_ ?]])]; simplify_eq; done.
    + subst status. destruct (d_downloaded_bytes d); simpl.
      * destruct (dl_reporthook _); split; try done;
          intros [[? _]|(? & _)]; done.
      * split; [intros [= <-]; right; auto|].
        intros [[? _]|(_ & -> & _)]; done.
    + split; [done|]. intros [[? _]|(_ & _ & [?|[? _]])]; simplify_eq.
  - split; [intros [= <-]; auto|]. intros [[_ ->]|(_ & _ & [?|[? _]])]; done.
Qed.

Lemma my_hook_ok_inv self d self' :
  _my_hook self d = Ok self' →
  dl_url self' = dl_url self ∧ dl_reporthook self' = dl_reporthook self ∧
  dl_prev_dl_bytes self'
  = dl_prev_dl_bytes self
    + (if bool_decide (d_status d = Some "finished")
       then or_else (d_downloaded_bytes d) 0 else 0) ∧
  ∃ call,
    call.1.2 = 1 ∧
    dl_reported self'
    = dl_reported self
      ++ (if dl_reporthook self && is_reporting d then [call] else []).
Proof.
  unfold _my_hook, is_reporting.
  destruct (d_status d) as [status|]; simpl; [|done].
  destruct (decide (status = "downloading")) as [->|Hnd].
  - rewrite (bool_decide_true (Some "downloading" = Some "downloading")) by done.
    rewrite (bool_decide_true ("downloading" = "downloading")) by done.
    rewrite (bool_decide_false (Some "downloading" = Some "finished")) by done.
    destruct (dl_reporthook self) eqn:Hh; simpl.
    + destruct (d_downloaded_bytes d) as [b|]; simpl; [|done].
      intros [= <-]. simpl. split; [done|]. split; [done|]. split; [lia|].
      by eexists (_, 1, _).
    + intros [= <-]. rewrite app_nil_r. split; [done|]. split; [done|].
      split; [lia|]. by exists (0, 1, 0).
  - rewrite (bool_decide_false (status = "downloading")) by done.
    rewrite (bool_decide_false (Some status = Some "downloading")) by congruence.
    destruct (decide (status = "finished")) as [->|Hnf].
    + rewrite (bool_decide_true ("finished" = "finished")) by done.
      rewrite (bool_decide_true (Some "finished" = Some "finished")) by done.
      destruct (d_downloaded_bytes d) as [b|]; simpl; [|done].
      destruct (dl_reporthook self) eqn:Hh; simpl; intros [= <-]; simpl;
        rewrite ?app_nil_r; (split; [done|]; split; [done|]; split; [done|]).
      * by eexists (_, 1, _).
      * by exists (0, 1, 0).
    + rewrite (bool_decide_false (status = "finished")) by done.
      rewrite (bool_decide_false (Some status = Some "finished")) by congruence.
      intros [= <-]. rewrite andb_false_r, app_nil_r.
      split; [done|]. split; [done|]. split; [lia|]. by exists (0, 1, 0).
Qed.

(** X6. The counter of the adapter is the sum of the bytes of the finished
    fragments: after any event list that raises nothing, [prev_dl_bytes] has
    grown by the [downloaded_bytes] of the finished events, whether or not a
    host callback is installed; the URL and the callback are unchanged. *)
Theorem run_hook_counter (self self' : YoutubeCustomDownload)
    (events : list hook_event) :
  run_hook self events = (Ok (), self') →
  dl_prev_dl_bytes self' = dl_prev_dl_bytes self + finished_bytes events
  ∧ dl_url self' = dl_url self
  ∧ dl_reporthook self' = dl_reporthook self.
Proof.
  revert self. induction events as [|d events IH]; intros self; simpl.
  - intros [= <-]. split_and!; [lia|done..].
  - destruct (_my_hook self d) as [self1|x] eqn:Hd; [|done].
    intros (Hp & Hu & Hh)%IH.
    apply my_hook_ok_inv in Hd as (Hu1 & Hh1 & Hp1 & _).
    rewrite Hp, Hu, Hh, Hp1, Hu1, Hh1. split_and!; [lia|done..].
Qed.

Lemma run_hook_counter_witness :
  1000 = 0 + finished_bytes
    [ {| d_status := Some "downloading"; d_downloaded_bytes := Some 500;
         d_total_bytes := Some 1000; d_total_bytes_estimate := None |};
      {| d_status := Some "finished"; d_downloaded_bytes := Some 1000;
         d_total_bytes := None; d_total_bytes_estimate := None |} ].
Proof.
  apply (run_hook_counter (new_download "u")
           {| dl_url := "u"; dl_reporthook := false;
              dl_prev_dl_bytes := 1000; dl_reported := [] |}).
  reflexivity.
Defined.

(** X7. The host callback is called once for every downloading or finished
    event and never otherwise: after an event list that raises nothing, the
    calls made are as many as these events when a callback is installed and
    none when it is not, each call has the fragment index 1, and earlier
    calls are kept in order. *)
Theorem run_hook_reports (self self' : YoutubeCustomDownload)
    (events : list hook_event) :
  run_hook self events = (Ok (), self') →
  ∃ calls,
    dl_reported self' = dl_reported self ++ calls ∧
    length calls
    = (if dl_reporthook self then length (filter (λ d, is_reporting d) events)
       else 0%nat) ∧
    Forall (λ call, call.1.2 = 1) calls.
Proof.
  revert self. induction events as [|d events IH]; intros self; simpl.
  - intros [= <-]. exists []. rewrite app_nil_r.
    split_and!; [done|by destruct (dl_reporthook self)|constructor].
  - destruct (_my_hook self d) as [self1|x] eqn:Hd; [|done].
    intros (calls & Hc & Hlen & Hall)%IH.
    apply my_hook_ok_inv in Hd as (_ & Hh1 & _ & call & Hcall & Hr1).
    rewrite Hh1 in Hlen. rewrite Hc, Hr1, <- (assoc_L (++)).
    eexists. split; [done|]. rewrite filter_cons.
    destruct (dl_reporthook self); simpl.
    + destruct (is_reporting d) eqn:Hrep.
      * rewrite decide_True by done. simpl. split; [by rewrite Hlen|].
        by constructor.
      * rewrite decide_False by (by intros ?). done.
    + done.
Qed.

Lemma run_hook_reports_witness :
  ∃ calls,
    [(1000, 1, 1000)] = [] ++ calls ∧
    length calls
    = length (filter (λ d, is_reporting d)
        [ {| d_status := Some "error"; d_downloaded_bytes := None;
             d_total_bytes := None; d_total_bytes_estimate := None |};
          {| d_status := Some "finished"; d_downloaded_bytes := Some 1000;
             d_total_bytes := None; d_total_bytes_estimate := None |} ]).
Proof.
  destruct (run_hook_reports (set_reporthook (new_download "u") true)
              {| dl_url := "u"; dl_reporthook := true;
                 dl_prev_dl_bytes := 1000; dl_reported := [(1000, 1, 1000)] |}
              [ {| d_status := Some "error"; d_downloaded_bytes := None;
                   d_total_bytes := None; d_total_bytes_estimate := None |};
                {| d_status := Some "finished"; d_downloaded_bytes := Some 1000;
                   d_total_bytes := None; d_total_bytes_estimate := None |} ])
    as (calls & H1 & H2 & _); [reflexivity|].
  exists calls. split; [exact H1|exact H2].
Defined.

Lemma my_hook_raises_witness :
  _my_hook (new_download "u")
    {| d_status := Some "finished"; d_downloaded_bytes := None;
       d_total_bytes := None; d_total_bytes_estimate := None |}
  = Raise (KeyError "downloaded_bytes").
Proof.
  apply (proj2 (my_hook_raises (new_download "u")
                  {| d_status := Some "finished"; d_downloaded_bytes := None;
                     d_total_bytes := None; d_total_bytes_estimate := None |}
                  (KeyError "downloaded_bytes"))).
  right. split; [reflexivity|]. split; [reflexivity|]. left. reflexivity.
Defined.

(** ** The download orchestration, continued *)

Lemma string_length_zero (s : string) : String.length s = 0%nat → s = "".
Proof. by destruct s. Qed.

(** The outcomes of the repair of the output path. *)
Lemma repair_path_cases (fs : gmap string node) tempname ext :
  match repair_path tempname ("." +:+ ext) fs with
  | Ok fs'' =>
      is_Some (fs !! tempname) ∧
      (fs'' = fs
       ∨ ∃ content,
           fs !! tempname = Some (RegularFile "") ∧
           fs !! (tempname +:+ "." +:+ ext) = Some (RegularFile content) ∧
           fs'' = <[tempname := RegularFile content]>
                    (delete (tempname +:+ "." +:+ ext) (delete tempname fs)))
  | Raise x =>
      x = OSError tempname ∧
      (fs !! tempname = None
       ∨ fs !! tempname = Some (Directory 0)
         ∧ os_path_isfile fs (tempname +:+ "." +:+ ext) = true)
  end.
Proof.
  destruct (fs !! tempname) as [[content|sz]|] eqn:Htmp.
  - destruct (decide (content = "")) as [->|Hne].
    + destruct (fs !! (tempname +:+ "." +:+ ext)) as [[c|?]|] eqn:Hext.
      * rewrite (repair_path_moves fs tempname ext c Htmp Hext).
        split; [by eauto|]. right. by exists c.
      * unfold repair_path, os_stat_size, os_path_isfile.
        rewrite Htmp. simpl. rewrite Hext. eauto.
      * unfold repair_path, os_stat_size, os_path_isfile.
        rewrite Htmp. simpl. rewrite Hext. eauto.
    + unfold repair_path, os_stat_size. rewrite Htmp. simpl.
      destruct (Z.eqb_spec (Z.of_nat (String.length content)) 0) as [Hz|_];
        [|by eauto].
      exfalso. apply Hne, string_length_zero. lia.
  - unfold repair_path, os_stat_size. rewrite Htmp. simpl.
    destruct (Z.eqb_spec sz 0) as [->|_]; [|by eauto].
    destruct (os_path_isfile fs (tempname +:+ "." +:+ ext)) eqn:Hfile.
    + unfold os_remove. rewrite Htmp. simpl. auto.
    + by eauto.
  - unfold repair_path, os_stat_size. rewrite Htmp. simpl. auto.
Qed.

Section retrieve_more.
Variable fetch_video :
  string → string → gmap string node →
  list hook_event * gmap string node * result fetch_info.
Variable mimetype_from_extension : string → string.

Abbreviation fetch_stage := (fetch_stage fetch_video).
Abbreviation retrieve_resume :=
  (retrieve_resume fetch_video mimetype_from_extension).

(** [retrieve_resume] after the fetch, by the outcome of the repair. *)
Lemma retrieve_resume_unfold self tempname reporthook fs :
  ∀ r self' fs', fetch_stage self tempname reporthook fs = (r, self', fs') →
  match r with
  | Raise x => retrieve_resume self tempname reporthook fs = (Raise x, self', fs')
  | Ok res =>
      match res_ext res with
      | None =>
          retrieve_resume self tempname reporthook fs
          = (Ok (∅, or_else (res_url res) (dl_url self')), self', fs')
      | Some ext =>
          match repair_path tempname ("." +:+ ext) fs' with
          | Ok fs'' =>
              ∃ headers,
                retrieve_resume self tempname reporthook fs
                = (Ok (headers, or_else (res_url res) (dl_url self')), self',
                   fs'')
          | Raise x =>
              retrieve_resume self tempname reporthook fs = (Raise x, self', fs')
          end
      end
  end.
Proof.
  intros r self' fs' Hfetch. unfold retrieve_resume. rewrite Hfetch.
  destruct r as [res|x]; [|done].
  destruct (res_ext res) as [ext|]; [|done].
  destruct (repair_path _ _ _); [|done]. by eexists.
Qed.

(** X8. [retrieve_resume] changes the file system that the backend leaves
    in one case only: the backend names an extension, [tempname] is an empty
    regular file and [tempname + '.' + ext] is a regular file; then that
    file is moved onto [tempname].  In every other case, also when it
    raises, the file system is as the backend left it. *)
Theorem retrieve_resume_frame (self : YoutubeCustomDownload)
    (tempname : string) (reporthook : bool) (fs : gmap string node) :
  let fs' := (fetch_stage self tempname reporthook fs).2 in
  let fs'' := (retrieve_resume self tempname reporthook fs).2 in
  fs'' = fs'
  ∨ ∃ res ext content,
      (fetch_stage self tempname reporthook fs).1.1 = Ok res ∧
      res_ext res = Some ext ∧
      fs' !! tempname = Some (RegularFile "") ∧
      fs' !! (tempname +:+ "." +:+ ext) = Some (RegularFile content) ∧
      fs'' = <[tempname := RegularFile content]>
               (delete (tempname +:+ "." +:+ ext) (delete tempname fs')).
Proof.
  destruct (fetch_stage self tempname reporthook fs) as [[r self'] fs'] eqn:Hf.
  pose proof (retrieve_resume_unfold _ _ _ _ _ _ _ Hf) as Hr. simpl.
  destruct r as [res|x]; [|by rewrite Hr; left].
  destruct (res_ext res) as [ext|] eqn:Hext; [|by rewrite Hr; left].
  pose proof (repair_path_cases fs' tempname ext) as Hcases.
  destruct (repair_path tempname ("." +:+ ext) fs') as [fs''|x];
    [|by rewrite Hr; left].
  destruct Hr as [headers ->]. simpl.
  destruct Hcases as [_ [->|(content & ? & ? & ->)]]; [by left|].
  right. by exists res, ext, content.
Qed.

(** X9. A missing output file is reported only when the backend names an
    extension: with an [ext] in the result and nothing at [tempname],
    [retrieve_resume] raises the error of [os.stat]; without an [ext] it
    returns normally, with no header, without looking at the file system. *)
Theorem retrieve_resume_missing_file (self self' : YoutubeCustomDownload)
    (tempname : string) (reporthook : bool) (fs fs' : gmap string node)
    (res : fetch_info) :
  fetch_stage self tempname reporthook fs = (Ok res, self', fs') →
  fs' !! tempname = None →
  match res_ext res with
  | Some ext =>
      retrieve_resume self tempname reporthook fs
      = (Raise (OSError tempname), self', fs')
  | None =>
      retrieve_resume self tempname reporthook fs
      = (Ok (∅, or_else (res_url res) (dl_url self')), self', fs')
  end.
Proof.
  intros Hf Htmp. pose proof (retrieve_resume_unfold _ _ _ _ _ _ _ Hf) as Hr.
  simpl in Hr. destruct (res_ext res) as [ext|]; [|done].
  unfold repair_path, os_stat_size in Hr. by rewrite Htmp in Hr.
Qed.

(** X10. [retrieve_resume] loses no data: every non-empty regular file that
    the backend leaves is still there afterwards, with the same content, at
    its own path or, for the repaired download, at [tempname]. *)
Theorem retrieve_resume_keeps_content (self : YoutubeCustomDownload)
    (tempname : string) (reporthook : bool) (fs : gmap string node)
    (path content : string) :
  content ≠ "" →
  (fetch_stage self tempname reporthook fs).2 !! path
  = Some (RegularFile content) →
  (retrieve_resume self tempname reporthook fs).2 !! path
  = Some (RegularFile content)
  ∨ (retrieve_resume self tempname reporthook fs).2 !! tempname
    = Some (RegularFile content).
Proof.
  intros Hne.
  destruct (fetch_stage self tempname reporthook fs) as [[r self'] fs'] eqn:Hf.
  pose proof (retrieve_resume_unfold _ _ _ _ _ _ _ Hf) as Hr. simpl.
  intros Hpath.
  destruct r as [res|x]; [|rewrite Hr; by left].
  destruct (res_ext res) as [ext|] eqn:Hext; [|rewrite Hr; by left].
  pose proof (repair_path_cases fs' tempname ext) as Hcases.
  destruct (repair_path tempname ("." +:+ ext) fs') as [fs''|x];
    [|rewrite Hr; by left].
  destruct Hr as [headers ->]. simpl.
  destruct Hcases as [_ [->|(c & Htmp & Hfile & ->)]]; [by left|].
  destruct (decide (path = tempname)) as [->|Hp1]; [congruence|].
  destruct (decide (path = tempname +:+ "." +:+ ext)) as [->|Hp2].
  - right. rewrite lookup_insert_eq. congruence.
  - left. by rewrite lookup_insert_ne, !lookup_delete_ne.
Qed.
End retrieve_more.

Lemma retrieve_resume_missing_file_witness :
  retrieve_resume (λ _ _ fs, ([], fs, Ok {| res_ext := Some "mp4";
                                            res_url := None |}))
    sample_mimetype (new_download "u") "a.partial" false ∅
  = (Raise (OSError "a.partial"), new_download "u", ∅).
Proof.
  apply (retrieve_resume_missing_file
           (λ _ _ fs, ([], fs, Ok {| res_ext := Some "mp4"; res_url := None |}))
           sample_mimetype (new_download "u") (new_download "u") "a.partial"
           false ∅ ∅ {| res_ext := Some "mp4"; res_url := None |});
    reflexivity.
Defined.

Lemma retrieve_resume_keeps_content_witness :
  (retrieve_resume merging_fetch_video sample_mimetype (new_download "u")
     "a.partial" true ∅).2 !! "a.partial.mp4" = Some (RegularFile "data")
  ∨ (retrieve_resume merging_fetch_video sample_mimetype (new_download "u")
       "a.partial" true ∅).2 !! "a.partial" = Some (RegularFile "data").
Proof.
  apply (retrieve_resume_keeps_content merging_fetch_video sample_mimetype
           (new_download "u") "a.partial" true ∅ "a.partial.mp4" "data").
  - discriminate.
  - vm_compute. reflexivity.
Defined.

(** ** The sync operation, continued *)

Lemma guid_set_raise (entries : list entry) e :
  e ∈ entries → e_guid e = None → guid_set entries = Raise (KeyError "guid").
Proof.
  intros He Hg. induction entries as [|e' entries IH]; [by apply elem_of_nil in He|].
  simpl. apply elem_of_cons in He as [<-|He].
  - by rewrite Hg.
  - destruct (e_guid e'); simpl; [|done]. by rewrite (IH He).
Qed.

Lemma filter_is_new_none existing (entries : list entry) :
  Forall (λ e, ∃ guid, e_guid e = Some guid ∧ guid ∈ existing) entries →
  filter (λ e, is_new existing e) entries = [].
Proof.
  induction 1 as [|e entries (guid & Hg & Hin) _ IH]; [done|].
  rewrite filter_cons, decide_False, IH; [done|].
  unfold is_new. rewrite Hg. rewrite bool_decide_false; [by intros ?|tauto].
Qed.

Lemma new_YoutubeFeed_entries url cover_url description max_episodes ie self rest :
  new_YoutubeFeed url cover_url description max_episodes ie = (Ok self, rest) →
  ∃ out,
    (_process_entries max_episodes (or_else (ie_entries ie) [])).1 = Ok out ∧
    self = {| feed_url := url; feed_cover_url := cover_url;
              feed_description := description;
              feed_max_episodes := max_episodes;
              feed_ie_result := set_entries ie out |}.
Proof.
  unfold new_YoutubeFeed.
  destruct (_process_entries _ _) as [[out|x] rest']; [|done].
  intros [= <- <-]. by exists out.
Qed.

Section sync_more.
Variable refresh_entries : extraction → Z → list entry.
Variable mktime : struct_time → Z.
Variable remove_html_tags : string → string.
Variable mimetype_from_extension : string → string.
Variable gettext : string → string.
Variable link_urls : string → string.

Abbreviation build_episode :=
  (build_episode mktime remove_html_tags mimetype_from_extension gettext
     link_urls).
Abbreviation save_episodes :=
  (save_episodes mktime remove_html_tags mimetype_from_extension gettext
     link_urls).
Abbreviation get_new_episodes :=
  (get_new_episodes refresh_entries mktime remove_html_tags
     mimetype_from_extension gettext link_urls).

Lemma save_episodes_raise pre en post built episodes x :
  Forall2 (λ en ep, build_episode en = Ok ep) pre built →
  build_episode en = Raise x →
  save_episodes (pre ++ en :: post) episodes = (Raise x, episodes ++ built).
Proof.
  intros Hpre Hen. revert episodes.
  induction Hpre as [|e ep pre built Hb _ IH]; intros episodes; simpl.
  - by rewrite Hen, app_nil_r.
  - by rewrite Hb, IH, <- (assoc_L (++)).
Qed.

(** X11. An entry without a [guid] among the trimmed entries makes
    [get_new_episodes] raise [KeyError('guid')] before anything happens: the
    backend is not called, no episode is saved and the feed keeps its
    entries. *)
Theorem get_new_episodes_missing_guid (self : YoutubeFeed)
    (all_entries : list entry) (existing : gset string) (e : entry) :
  ie_entries (feed_ie_result self) = Some all_entries →
  e ∈ trim_entries (feed_max_episodes self) all_entries →
  e_guid e = None →
  get_new_episodes self existing
  = {| so_result := Raise (KeyError "guid"); so_feed := self;
       so_refreshed := []; so_saved := [] |}.
Proof.
  intros Hentries He Hg. unfold get_new_episodes. rewrite Hentries. simpl.
  by rewrite (guid_set_raise _ _ He Hg).
Qed.

(** X12. Episodes are saved one by one: when the episode of an enriched
    entry cannot be built (no [id], or an upload date that does not parse),
    [get_new_episodes] raises that exception after it has saved the episodes
    of all the entries before it, and the feed already holds the enriched
    entries. *)
Theorem get_new_episodes_partial_save (self : YoutubeFeed)
    (all_entries : list entry) (existing : gset string)
    (pre post : list entry) (en : entry) (built : list episode) (x : exn) :
  ie_entries (feed_ie_result self) = Some all_entries →
  Forall (λ e, is_Some (e_guid e))
    (trim_entries (feed_max_episodes self) all_entries) →
  refresh_entries
    (set_entries (feed_ie_result self)
       (filter (λ e, is_new existing e)
          (trim_entries (feed_max_episodes self) all_entries)))
    (feed_max_episodes self)
  = pre ++ en :: post →
  Forall2 (λ en ep, build_episode en = Ok ep) pre built →
  build_episode en = Raise x →
  so_result (get_new_episodes self existing) = Raise x ∧
  so_saved (get_new_episodes self existing) = built ∧
  ie_entries (feed_ie_result (so_feed (get_new_episodes self existing)))
  = Some (pre ++ en :: post).
Proof.
  intros Hentries Hguids Henriched Hpre Hen.
  destruct (get_new_episodes_unfold refresh_entries mktime remove_html_tags
              mimetype_from_extension gettext link_urls self all_entries
              existing Hentries Hguids) as (guids & _ & ->).
  simpl. rewrite Henriched, (save_episodes_raise _ _ _ _ [] _ Hpre Hen).
  done.
Qed.

(** X13. When [get_new_episodes] returns, the episodes returned are the
    episodes saved, one for each entry that the backend left in the feed and
    in the same order, each with the guid ['yt:video:' + id] of its entry;
    the backend was called exactly once. *)
Theorem get_new_episodes_returns (self : YoutubeFeed) (existing : gset string)
    (eps : list episode) (guids : gset string) :
  so_result (get_new_episodes self existing) = Ok (eps, guids) →
  so_saved (get_new_episodes self existing) = eps ∧
  ∃ request,
    so_refreshed (get_new_episodes self existing) = [request] ∧
    ie_entries (feed_ie_result (so_feed (get_new_episodes self existing)))
    = Some (refresh_entries request (feed_max_episodes self)) ∧
    Forall2 (λ en ep, build_episode en = Ok ep
                      ∧ video_guid <$> e_id en = Some (ep_guid ep))
      (refresh_entries request (feed_max_episodes self)) eps.
Proof.
  unfold get_new_episodes.
  destruct (getitem "entries" _) as [all_entries|]; [|done].
  destruct (guid_set _) as [all_seen|]; [|done].
  destruct (select_new _ _) as [new_entries|]; [|done]. simpl.
  destruct (save_episodes _ []) as [[eps'|x] saved] eqn:Hsave; simpl; [|done].
  intros [= -> ->].
  apply save_episodes_inv in Hsave as (-> & built & -> & Hbuilt).
  split; [done|]. eexists. split; [done|]. split; [done|]. simpl.
  eapply Forall2_impl; [exact Hbuilt|]. simpl.
  intros en ep Hb. split; [done|]. by apply build_episode_guid in Hb.
Qed.

(** X14. When every trimmed entry is already known the backend is still
    called, with an empty entry list. *)
Theorem get_new_episodes_nothing_new (self : YoutubeFeed)
    (all_entries : list entry) (existing : gset string) :
  ie_entries (feed_ie_result self) = Some all_entries →
  Forall (λ e, ∃ guid, e_guid e = Some guid ∧ guid ∈ existing)
    (trim_entries (feed_max_episodes self) all_entries) →
  so_refreshed (get_new_episodes self existing)
  = [set_entries (feed_ie_result self) []].
Proof.
  intros Hentries Hknown.
  assert (Forall (λ e, is_Some (e_guid e))
            (trim_entries (feed_max_episodes self) all_entries)) as Hguids.
  { eapply Forall_impl; [exact Hknown|]. simpl. intros e (g & -> & _). eauto. }
  destruct (get_new_episodes_unfold refresh_entries mktime remove_html_tags
              mimetype_from_extension gettext link_urls self all_entries
              existing Hentries Hguids) as (guids & _ & ->).
  simpl. by rewrite (filter_is_new_none _ _ Hknown).
Qed.

(** X15. For a feed as [YoutubeFeed.__init__] makes it, with a cap that is
    not negative, the trimming of [get_new_episodes] removes nothing and no
    guid is missing: the backend is called on exactly the entries of the
    feed whose guid is not known. *)
Theorem get_new_episodes_fresh_feed (url : string)
    (cover_url description : option string) (max_episodes : Z)
    (ie : extraction) (self : YoutubeFeed) (rest : list entry)
    (existing : gset string) :
  new_YoutubeFeed url cover_url description max_episodes ie = (Ok self, rest) →
  0 ≤ max_episodes →
  ∃ entries,
    ie_entries (feed_ie_result self) = Some entries ∧
    trim_entries (feed_max_episodes self) entries = entries ∧
    so_refreshed (get_new_episodes self existing)
    = [set_entries (feed_ie_result self)
         (filter (λ e, is_new existing e) entries)].
Proof.
  intros (out & Hout & ->)%new_YoutubeFeed_entries Hmax.
  exists out. simpl. split; [done|].
  assert (trim_entries max_episodes out = out) as Htrim.
  { rewrite trim_entries_take.
    destruct (Z.eqb_spec max_episodes 0) as [|Hne]; [done|].
    apply take_ge.
    pose proof (process_entries_length_le max_episodes _ _ ltac:(lia) Hout).
    lia. }
  split; [done|].
  assert (Forall (λ e, is_Some (e_guid e)) (trim_entries max_episodes out))
    as Hguids.
  { rewrite Htrim.
    destruct (process_entries_ok _ _ _ Hout) as (consumed & _ & -> & _).
    eapply Forall_impl; [apply first_occurrences_wf|]. simpl.
    intros e (_ & id & _ & ->). eauto. }
  destruct (get_new_episodes_unfold refresh_entries mktime remove_html_tags
              mimetype_from_extension gettext link_urls
              {| feed_url := url; feed_cover_url := cover_url;
                 feed_description := description;
                 feed_max_episodes := max_episodes;
                 feed_ie_result := set_entries ie out |}
              out existing eq_refl Hguids) as (guids & _ & ->).
  simpl. by rewrite Htrim.
Qed.

(** X16. A negative cap empties the sync: the trimming keeps no entry, so
    the backend is called with an empty entry list and a call that returns
    reports no GUID at all, whatever the feed holds. *)
Theorem get_new_episodes_negative_cap (self : YoutubeFeed)
    (all_entries : list entry) (existing : gset string) :
  ie_entries (feed_ie_result self) = Some all_entries →
  feed_max_episodes self < 0 →
  so_refreshed (get_new_episodes self existing)
  = [set_entries (feed_ie_result self) []] ∧
  ∀ eps guids,
    so_result (get_new_episodes self existing) = Ok (eps, guids) → guids = ∅.
Proof.
  intros Hentries Hneg.
  assert (trim_entries (feed_max_episodes self) all_entries = []) as Htrim.
  { rewrite trim_entries_take.
    destruct (Z.eqb_spec (feed_max_episodes self) 0); [lia|].
    replace (Z.to_nat (feed_max_episodes self)) with 0%nat by lia. done. }
  unfold get_new_episodes. rewrite Hentries. simpl. rewrite Htrim. simpl.
  destruct (save_episodes _ []) as [[eps'|x] saved]; simpl.
  - split; [done|]. by intros eps guids [= _ <-].
  - done.
Qed.
End sync_more.

Lemma get_new_episodes_missing_guid_witness :
  get_new_episodes sample_refresh_entries mktime_utc keep_text sample_mimetype
    keep_text keep_text untagged_feed ∅
  = {| so_result := Raise (KeyError "guid"); so_feed := untagged_feed;
       so_refreshed := []; so_saved := [] |}.
Proof.
  apply (get_new_episodes_missing_guid sample_refresh_entries mktime_utc
           keep_text sample_mimetype keep_text keep_text untagged_feed
           [video_entry "a"] ∅ (video_entry "a")).
  - reflexivity.
  - apply list_elem_of_singleton. reflexivity.
  - reflexivity.
Defined.

Lemma get_new_episodes_partial_save_witness :
  so_result
    (get_new_episodes broken_refresh_entries mktime_utc keep_text
       sample_mimetype keep_text keep_text sample_feed ∅)
  = Raise (KeyError "id")
  ∧ length
      (so_saved
         (get_new_episodes broken_refresh_entries mktime_utc keep_text
            sample_mimetype keep_text keep_text sample_feed ∅))
    = 1%nat.
Proof.
  destruct (build_episode mktime_utc keep_text sample_mimetype keep_text
              keep_text (enrich_entry (video_entry "c"))) as [ep|] eqn:Hep;
    [|vm_compute in Hep; discriminate].
  destruct (get_new_episodes_partial_save broken_refresh_entries mktime_utc
              keep_text sample_mimetype keep_text keep_text sample_feed
              (first_occurrences
                 [video_entry "a"; video_entry "b"; video_entry "c";
                  video_entry "d"])
              ∅ [enrich_entry (video_entry "c")] [] no_id_entry [ep]
              (KeyError "id"))
    as (H1 & H2 & _).
  - reflexivity.
  - vm_compute. repeat constructor; eexists; reflexivity.
  - reflexivity.
  - repeat constructor. exact Hep.
  - reflexivity.
  - split; [exact H1|]. rewrite H2. reflexivity.
Defined.

Lemma get_new_episodes_returns_witness :
  ∃ eps,
    so_saved
      (get_new_episodes sample_refresh_entries mktime_utc keep_text
         sample_mimetype keep_text keep_text sample_feed
         {[video_guid "a"; video_guid "b"]})
    = eps.
Proof.
  destruct (so_result
              (get_new_episodes sample_refresh_entries mktime_utc keep_text
                 sample_mimetype keep_text keep_text sample_feed
                 {[video_guid "a"; video_guid "b"]}))
    as [[eps guids]|x] eqn:Hres; [|vm_compute in Hres; discriminate].
  destruct (get_new_episodes_returns sample_refresh_entries mktime_utc
              keep_text sample_mimetype keep_text keep_text sample_feed
              {[video_guid "a"; video_guid "b"]} eps guids Hres) as [H _].
  exists eps. exact H.
Defined.

Lemma get_new_episodes_nothing_new_witness :
  so_refreshed
    (get_new_episodes sample_refresh_entries mktime_utc keep_text
       sample_mimetype keep_text keep_text sample_feed
       {[video_guid "a"; video_guid "b"; video_guid "c"; video_guid "d"]})
  = [set_entries (feed_ie_result sample_feed) []].
Proof.
  apply (get_new_episodes_nothing_new sample_refresh_entries mktime_utc
           keep_text sample_mimetype keep_text keep_text sample_feed
           (first_occurrences
              [video_entry "a"; video_entry "b"; video_entry "c";
               video_entry "d"])).
  - reflexivity.
  - vm_compute trim_entries.
    repeat constructor; eexists; (split; [reflexivity|]);
      rewrite !elem_of_union, !elem_of_singleton; tauto.
Defined.

Lemma get_new_episodes_fresh_feed_witness :
  ∃ entries,
    ie_entries (set_entries uploads_playlist
                  (first_occurrences [video_entry "a"; video_entry "b"]))
    = Some entries ∧
    trim_entries 0 entries = entries.
Proof.
  destruct (get_new_episodes_fresh_feed sample_refresh_entries mktime_utc
              keep_text sample_mimetype keep_text keep_text channel_page
              None None 0 uploads_playlist
              {| feed_url := channel_page; feed_cover_url := None;
                 feed_description := None; feed_max_episodes := 0;
                 feed_ie_result :=
                   set_entries uploads_playlist
                     (first_occurrences [video_entry "a"; video_entry "b"]) |}
              [] ∅)
    as (entries & H1 & H2 & _); [reflexivity|lia|].
  exists entries. split; [exact H1|exact H2].
Defined.

Lemma get_new_episodes_negative_cap_witness :
  so_refreshed
    (get_new_episodes sample_refresh_entries mktime_utc keep_text
       sample_mimetype keep_text keep_text negative_cap_feed ∅)
  = [set_entries (feed_ie_result negative_cap_feed) []].
Proof.
  apply (get_new_episodes_negative_cap sample_refresh_entries mktime_utc
           keep_text sample_mimetype keep_text keep_text negative_cap_feed
           (first_occurrences
              [video_entry "a"; video_entry "b"; video_entry "c";
               video_entry "d"]) ∅); [reflexivity|reflexivity].
Defined.

(** ** The HTML description *)

(** X17. [replace_newlines] (the [description.replace('\n', '<br>')] of
    [nice_html_description]) leaves no newline in the text, and does not
    change a text without newlines. *)
Theorem replace_newlines_spec (s : string) :
  (newline ∉ String.list_ascii_of_string (replace_newlines s))
  ∧ ((newline ∉ String.list_ascii_of_string s) → replace_newlines s = s).
Proof.
  induction s as [|c s [IH1 IH2]]; simpl.
  - split; [apply not_elem_of_nil|done].
  - case_bool_decide as Hc.
    + subst c. split.
      * string_simpl. simpl. rewrite !not_elem_of_cons.
        split_and!; [done..|]. exact IH1.
      * intros Hnot. exfalso. apply Hnot. apply elem_of_cons. by left.
    + split.
      * simpl. rewrite not_elem_of_cons. split; [congruence|done].
      * intros Hnot. rewrite IH2; [done|].
        intros Hin. apply Hnot. apply elem_of_cons. by right.
Qed.

(** ** The feed resolver, continued *)

Section resolver_more.
Variable extract_info : string → option string → result extraction.
Variable sanitize_url : string → string.
Variable get_cover : string → option string.
Variable get_channel_desc : string → option string.

Abbreviation resolve_loop := (resolve_loop extract_info sanitize_url).
Abbreviation resolve := (resolve extract_info sanitize_url).
Abbreviation refresh :=
  (refresh extract_info sanitize_url get_cover get_channel_desc).

Lemma resolve_loop_endless fuel r u :
  (∀ u k, ∃ r u', extract_info u k = Ok r ∧ ie_type r = Some "url"
                  ∧ ie_url r = Some u') →
  ie_url r = Some u →
  resolve_loop fuel r "url" false = None.
Proof.
  intros Hloop. revert r u. induction fuel as [|fuel IH]; intros r u Hu; [done|].
  simpl.
  destruct (Hloop (sanitize_url u) (ie_ie_key r)) as (r' & u' & Hr' & Ht' & Hu').
  assert (extract_type r' = Ok ("url", false)) as Hty
    by (unfold extract_type; by rewrite Ht').
  rewrite (resolve_step_url _ _ _ _ _ _ _ Hu Hr' Hty). by apply (IH r' u').
Qed.

(** X19. The resolver has no protection against endless redirection: under
    a backend that answers every request with a [url] result, the loop ends
    within no bound, for any starting URL. *)
Theorem resolve_endless (fuel : nat) (url channel_url : string)
    (max_episodes : Z) :
  (∀ u k, ∃ r u', extract_info u k = Ok r ∧ ie_type r = Some "url"
                  ∧ ie_url r = Some u') →
  resolve fuel url = None
  ∧ refresh fuel url channel_url max_episodes = None.
Proof.
  intros Hloop.
  assert (resolve fuel url = None) as Hres.
  { unfold resolve. destruct (Hloop url None) as (r & u & -> & Ht & Hu).
    assert (extract_type r = Ok ("url", false)) as ->
      by (unfold extract_type; by rewrite Ht).
    by apply (resolve_loop_endless fuel r u). }
  split; [done|]. unfold refresh. by rewrite Hres.
Qed.

(** X20. The exceptions of the resolver: an exception of the backend ends
    the resolution with that exception, at the first request and at a
    request made for a [url] result, and a [url] result without the key
    [url] ends it with [KeyError('url')]. *)
Theorem resolve_exceptions (fuel : nat) (url : string) :
  (∀ x, extract_info url None = Raise x → resolve fuel url = Some (Raise x))
  ∧ (∀ n, extract_info url None = Ok n → ie_type n = Some "url" →
          ie_url n = None →
          resolve (S fuel) url = Some (Raise (KeyError "url")))
  ∧ (∀ n u x, extract_info url None = Ok n → ie_type n = Some "url" →
              ie_url n = Some u →
              extract_info (sanitize_url u) (ie_ie_key n) = Raise x →
              resolve (S fuel) url = Some (Raise x)).
Proof.
  split_and!.
  - intros x Hx. unfold resolve. by rewrite Hx.
  - intros n Hn Ht Hu. unfold resolve. rewrite Hn.
    assert (extract_type n = Ok ("url", false)) as ->
      by (unfold extract_type; by rewrite Ht).
    simpl. unfold resolve_step. by rewrite Hu.
  - intros n u x Hn Ht Hu Hx. unfold resolve. rewrite Hn.
    assert (extract_type n = Ok ("url", false)) as ->
      by (unfold extract_type; by rewrite Ht).
    simpl. unfold resolve_step. rewrite Hu. simpl. by rewrite Hx.
Qed.

(** X21. A feed that [refresh] returns wraps a playlist (or multi_video)
    tree whose entries are filtered: no two carry the same guid and, under a
    positive cap, they are at most [max_episodes]; its cover and description
    are those looked up for the channel URL, not for the page resolved. *)
Theorem refresh_returns (fuel : nat) (url channel_url : string)
    (max_episodes : Z) (fr : feed_result) :
  refresh fuel url channel_url max_episodes = Some (Ok fr) →
  fr_status fr = UPDATED_FEED ∧
  feed_url (fr_feed fr) = url ∧
  feed_cover_url (fr_feed fr) = get_cover channel_url ∧
  feed_description (fr_feed fr) = get_channel_desc channel_url ∧
  feed_max_episodes (fr_feed fr) = max_episodes ∧
  (ie_type (feed_ie_result (fr_feed fr)) = Some "playlist"
   ∨ ie_type (feed_ie_result (fr_feed fr)) = Some "multi_video") ∧
  ∃ entries,
    ie_entries (feed_ie_result (fr_feed fr)) = Some entries ∧
    NoDup (e_guid <$> entries) ∧
    (0 < max_episodes → Z.of_nat (length entries) ≤ max_episodes).
Proof.
  unfold refresh. destruct (resolve fuel url) as [[tree|x]|] eqn:Hres; [|done..].
  simpl.
  destruct (new_YoutubeFeed url _ _ max_episodes tree) as [[feed|x] rest] eqn:Hf;
    [|done].
  simpl. intros [= <-]. simpl.
  apply new_YoutubeFeed_entries in Hf as (out & Hout & ->). simpl.
  assert (ie_type tree = Some "playlist" ∨ ie_type tree = Some "multi_video")
    as Hty.
  { unfold resolve in Hres.
    destruct (extract_info url None) as [n|]; [|done].
    destruct (extract_type n) as [[t hp]|] eqn:Hn; [|done].
    eapply resolve_loop_playlist; [..|exact Hn|exact Hres]; assumption. }
  split_and!; [done..|].
  exists out. split; [done|]. split.
  - destruct (process_entries_ok _ _ _ Hout) as (consumed & _ & -> & _).
    apply NoDup_guids_first_occurrences_from.
  - intros Hpos. by apply (process_entries_length_le _ _ _ Hpos Hout).
Qed.
End resolver_more.

Lemma resolve_endless_witness :
  resolve looping_backend keep_url 50 channel_page = None.
Proof.
  refine (proj1 (resolve_endless looping_backend keep_url no_lookup no_lookup
                   50 channel_page channel_page 0 _)).
  intros u k. exists (tree (Some "url") (Some u) k None), u.
  split; [reflexivity|]. split; reflexivity.
Defined.

Lemma resolve_exceptions_witness :
  resolve (chain_backend "url") keep_url 0 "https://example.org/"
  = Some (Raise (DownloadError "Unsupported URL")).
Proof.
  apply (proj1 (resolve_exceptions (chain_backend "url") keep_url 0
                  "https://example.org/")).
  reflexivity.
Defined.

Lemma refresh_returns_witness :
  ∃ fr,
    refresh (chain_backend "url") keep_url no_lookup no_lookup 2 channel_page
      channel_page 1 = Some (Ok fr)
    ∧ feed_url (fr_feed fr) = channel_page.
Proof.
  destruct (refresh (chain_backend "url") keep_url no_lookup no_lookup 2
              channel_page channel_page 1) as [[fr|x]|] eqn:Hr;
    [|vm_compute in Hr; discriminate..].
  destruct (refresh_returns (chain_backend "url") keep_url no_lookup no_lookup
              2 channel_page channel_page 1 fr Hr) as (_ & H & _).
  exists fr. split; [reflexivity|exact H].
Defined.

Lemma replace_newlines_spec_witness : replace_newlines "ab" = "ab".
Proof.
  apply (proj2 (replace_newlines_spec "ab")). simpl.
  rewrite !not_elem_of_cons.
  split; [discriminate|]. split; [discriminate|]. apply not_elem_of_nil.
Defined.

(** ** The recognition of URLs *)

Lemma re_match_prefix_lits p pat s :
  re_match_prefix (lits p ++ pat) (p +:+ s) = re_match_prefix pat s.
Proof.
  induction p as [|c p IH]; [done|].
  rewrite string_app_cons. cbn [lits app re_match_prefix matches_item].
  by rewrite bool_decide_true.
Qed.

Lemma re_match_prefix_lits_end p s : re_match_prefix (lits p) (p +:+ s) = Some s.
Proof.
  rewrite <- (app_nil_r (lits p)), re_match_prefix_lits. by destruct s.
Qed.

Lemma re_match_prefix_any c pat s :
  c ≠ newline →
  re_match_prefix (AnyChar :: pat) (String c s) = re_match_prefix pat s.
Proof.
  intros Hc. cbn [re_match_prefix matches_item]. by rewrite bool_decide_false.
Qed.

Lemma re_match_prefix_lits_inv p pat s rest :
  re_match_prefix (lits p ++ pat) s = Some rest →
  ∃ s', s = p +:+ s' ∧ re_match_prefix pat s' = Some rest.
Proof.
  revert s. induction p as [|c p IH]; intros s;
    cbn [lits app re_match_prefix matches_item].
  - intros H. by exists s.
  - destruct s as [|c' s]; [done|]. case_bool_decide as Hc; [|done].
    subst c'. intros (s' & -> & H)%IH. by exists s'.
Qed.

Lemma re_match_prefix_any_inv pat s rest :
  re_match_prefix (AnyChar :: pat) s = Some rest →
  ∃ c s', s = String c s' ∧ c ≠ newline ∧ re_match_prefix pat s' = Some rest.
Proof.
  cbn [re_match_prefix matches_item]. destruct s as [|c s]; [done|].
  case_bool_decide as Hc; [done|]. intros H. by exists c, s.
Qed.

Lemma re_match_prefix_lits_any p c pat s :
  c ≠ newline →
  re_match_prefix (lits p ++ [AnyChar] ++ pat) (p +:+ String c s)
  = re_match_prefix pat s.
Proof.
  intros Hc. rewrite re_match_prefix_lits. by apply re_match_prefix_any.
Qed.

Lemma re_match_prefix_lits_any_inv p pat s rest :
  re_match_prefix (lits p ++ [AnyChar] ++ pat) s = Some rest →
  ∃ c s', s = p +:+ String c s' ∧ c ≠ newline
          ∧ re_match_prefix pat s' = Some rest.
Proof.
  intros (s1 & -> & H)%re_match_prefix_lits_inv.
  apply re_match_prefix_any_inv in H as (c & s' & -> & Hc & H).
  by exists c, s'.
Qed.

Lemma take_line_spec s :
  ∃ tail, s = take_line s +:+ tail ∧ is_line (take_line s) ∧ line_end tail.
Proof.
  unfold is_line, line_end. induction s as [|c s (tail & Hs & Hl & Ht)]; simpl.
  - exists "". split_and!; [done|apply not_elem_of_nil|by left].
  - case_bool_decide as Hc.
    + subst c. exists (String newline s).
      split_and!; [done|apply not_elem_of_nil|right; by exists s].
    + exists tail. rewrite string_app_cons, <- Hs. split_and!; [done| |done].
      simpl. rewrite not_elem_of_cons. split; [congruence|done].
Qed.

Lemma take_line_app id tail :
  is_line id → line_end tail → take_line (id +:+ tail) = id.
Proof.
  unfold is_line, line_end. intros Hid Ht.
  induction id as [|c id IH].
  - rewrite string_app_nil_l.
    destruct Ht as [->|[t ->]]; reflexivity.
  - rewrite string_app_cons. cbn [take_line]. simpl in Hid.
    apply not_elem_of_cons in Hid as [Hc Hid].
    rewrite bool_decide_false by congruence. by rewrite IH.
Qed.

Lemma channel_re_matches c1 c2 c3 rest :
  c1 ≠ newline → c2 ≠ newline → c3 ≠ newline →
  re_match_prefix CHANNEL_RE (channel_feed_url c1 c2 c3 rest) = Some rest.
Proof.
  intros H1 H2 H3. unfold CHANNEL_RE, channel_feed_url.
  rewrite !re_match_prefix_lits_any by done. apply re_match_prefix_lits_end.
Qed.

Lemma playlist_re_matches c1 c2 c3 rest :
  c1 ≠ newline → c2 ≠ newline → c3 ≠ newline →
  re_match_prefix PLAYLIST_RE (playlist_feed_url c1 c2 c3 rest) = Some rest.
Proof.
  intros H1 H2 H3. unfold PLAYLIST_RE, playlist_feed_url.
  rewrite !re_match_prefix_lits_any by done. apply re_match_prefix_lits_end.
Qed.

Lemma channel_re_rejects_playlist c1 c2 c3 rest :
  re_match_prefix CHANNEL_RE (playlist_feed_url c1 c2 c3 rest) = None.
Proof.
  unfold CHANNEL_RE, playlist_feed_url.
  destruct (decide (c1 = newline)) as [->|H1];
    [by rewrite re_match_prefix_lits|].
  rewrite re_match_prefix_lits_any by done.
  destruct (decide (c2 = newline)) as [->|H2];
    [by rewrite re_match_prefix_lits|].
  rewrite re_match_prefix_lits_any by done.
  destruct (decide (c3 = newline)) as [->|H3];
    [by rewrite re_match_prefix_lits|].
  rewrite re_match_prefix_lits_any by done.
  change (lits "xml?channel_id=") with (lits "xml?" ++ lits "channel_id=").
  change ("xml?playlist_id=" +:+ rest) with ("xml?" +:+ "playlist_id=" +:+ rest).
  rewrite re_match_prefix_lits. done.
Qed.

Lemma channel_re_inv s rest :
  re_match_prefix CHANNEL_RE s = Some rest →
  ∃ c1 c2 c3, c1 ≠ newline ∧ c2 ≠ newline ∧ c3 ≠ newline
              ∧ s = channel_feed_url c1 c2 c3 rest.
Proof.
  unfold CHANNEL_RE, channel_feed_url.
  intros (c1 & s1 & -> & H1 & H)%re_match_prefix_lits_any_inv.
  apply re_match_prefix_lits_any_inv in H as (c2 & s2 & -> & H2 & H).
  apply re_match_prefix_lits_any_inv in H as (c3 & s3 & -> & H3 & H).
  rewrite <- (app_nil_r (lits _)) in H.
  apply re_match_prefix_lits_inv in H as (s4 & -> & H).
  assert (s4 = rest) as -> by (destruct s4; simpl in H; by simplify_eq).
  by exists c1, c2, c3.
Qed.

Lemma playlist_re_inv s rest :
  re_match_prefix PLAYLIST_RE s = Some rest →
  ∃ c1 c2 c3, c1 ≠ newline ∧ c2 ≠ newline ∧ c3 ≠ newline
              ∧ s = playlist_feed_url c1 c2 c3 rest.
Proof.
  unfold PLAYLIST_RE, playlist_feed_url.
  intros (c1 & s1 & -> & H1 & H)%re_match_prefix_lits_any_inv.
  apply re_match_prefix_lits_any_inv in H as (c2 & s2 & -> & H2 & H).
  apply re_match_prefix_lits_any_inv in H as (c3 & s3 & -> & H3 & H).
  rewrite <- (app_nil_r (lits _)) in H.
  apply re_match_prefix_lits_inv in H as (s4 & -> & H).
  assert (s4 = rest) as -> by (destruct s4; simpl in H; by simplify_eq).
  by exists c1, c2, c3.
Qed.

Lemma watch_re_inv s rest :
  re_match_prefix WATCH_RE s = Some rest →
  ∃ c1 c2, c1 ≠ newline ∧ c2 ≠ newline ∧ s = watch_url c1 c2 rest.
Proof.
  unfold WATCH_RE, watch_url.
  intros (c1 & s1 & -> & H1 & H)%re_match_prefix_lits_any_inv.
  apply re_match_prefix_lits_any_inv in H as (c2 & s2 & -> & H2 & H).
  rewrite <- (app_nil_r (lits _)) in H.
  apply re_match_prefix_lits_inv in H as (s3 & -> & H).
  assert (s3 = rest) as -> by (destruct s3; simpl in H; by simplify_eq).
  by exists c1, c2.
Qed.

Lemma re_match_group_inv pat s id :
  re_match_group pat s = Some id →
  ∃ tail, re_match_prefix pat s = Some (id +:+ tail)
          ∧ id ≠ "" ∧ is_line id ∧ line_end tail.
Proof.
  unfold re_match_group. destruct (re_match_prefix pat s) as [rest|]; [|done].
  simpl. case_bool_decide as Hne; [done|]. intros [= <-].
  destruct (take_line_spec rest) as (tail & Hrest & Hl & Ht).
  exists tail. by rewrite <- Hrest.
Qed.

Lemma channel_page_of_channel c1 c2 c3 id tail :
  c1 ≠ newline → c2 ≠ newline → c3 ≠ newline →
  id ≠ "" → is_line id → line_end tail →
  channel_page_of (channel_feed_url c1 c2 c3 (id +:+ tail))
  = Some ("https://www.youtube.com/channel/" +:+ id).
Proof.
  intros H1 H2 H3 Hid Hl Ht. unfold channel_page_of, re_match_group.
  rewrite channel_re_matches by done. simpl.
  rewrite take_line_app by done. by rewrite bool_decide_false.
Qed.

Lemma channel_page_of_playlist c1 c2 c3 id tail :
  c1 ≠ newline → c2 ≠ newline → c3 ≠ newline →
  id ≠ "" → is_line id → line_end tail →
  channel_page_of (playlist_feed_url c1 c2 c3 (id +:+ tail))
  = Some ("https://www.youtube.com/playlist?list=" +:+ id).
Proof.
  intros H1 H2 H3 Hid Hl Ht. unfold channel_page_of, re_match_group.
  rewrite channel_re_rejects_playlist, playlist_re_matches by done. simpl.
  rewrite take_line_app by done. by rewrite bool_decide_false.
Qed.

Lemma watch_re_matches c1 c2 rest :
  c1 ≠ newline → c2 ≠ newline →
  re_match_prefix WATCH_RE (watch_url c1 c2 rest) = Some rest.
Proof.
  intros H1 H2. unfold WATCH_RE, watch_url.
  rewrite !re_match_prefix_lits_any by done. apply re_match_prefix_lits_end.
Qed.

Lemma is_watch_url_watch c1 c2 v rest :
  c1 ≠ newline → c2 ≠ newline → v ≠ newline →
  is_watch_url (watch_url c1 c2 (String v rest)) = true.
Proof.
  intros H1 H2 Hv. unfold is_watch_url. rewrite watch_re_matches by done.
  cbn [take_line]. by rewrite (bool_decide_false (v = newline)).
Qed.

Lemma is_watch_url_inv s :
  is_watch_url s = true →
  ∃ c1 c2 v rest, c1 ≠ newline ∧ c2 ≠ newline ∧ v ≠ newline
                  ∧ s = watch_url c1 c2 (String v rest).
Proof.
  unfold is_watch_url.
  destruct (re_match_prefix WATCH_RE s) as [rest|] eqn:Hm; [|done].
  apply watch_re_inv in Hm as (c1 & c2 & H1 & H2 & ->).
  destruct rest as [|v rest]; [done|]. cbn [take_line].
  destruct (decide (v = newline)) as [->|Hv]; [done|].
  intros _. by exists c1, c2, v, rest.
Qed.

Section fetch_channel_facts.
Variable extract_info : string → option string → result extraction.
Variable sanitize_url : string → string.
Variable get_cover : string → option string.
Variable get_channel_desc : string → option string.

Abbreviation refresh :=
  (refresh extract_info sanitize_url get_cover get_channel_desc).
Abbreviation fetch_channel :=
  (fetch_channel extract_info sanitize_url get_cover get_channel_desc).

(** X22. [fetch_channel] translates a feed URL to the page of the channel
    or of the playlist and refreshes that page, keeping the feed URL for the
    cover and the description.  The dots of the two patterns are wildcards:
    any character but a newline may stand on the three places of the host
    and file name; the identifier is the text up to the first newline. *)
Theorem fetch_channel_translates (fuel : nat) (max_episodes : Z)
    (c1 c2 c3 : ascii) (id tail : string) :
  c1 ≠ newline → c2 ≠ newline → c3 ≠ newline →
  id ≠ "" → is_line id → line_end tail →
  fetch_channel fuel (channel_feed_url c1 c2 c3 (id +:+ tail)) max_episodes
  = Handled (refresh fuel ("https://www.youtube.com/channel/" +:+ id)
               (channel_feed_url c1 c2 c3 (id +:+ tail)) max_episodes)
  ∧ fetch_channel fuel (playlist_feed_url c1 c2 c3 (id +:+ tail)) max_episodes
    = Handled (refresh fuel ("https://www.youtube.com/playlist?list=" +:+ id)
                 (playlist_feed_url c1 c2 c3 (id +:+ tail)) max_episodes).
Proof.
  intros H1 H2 H3 Hid Hl Ht. unfold fetch_channel. split.
  - by rewrite channel_page_of_channel.
  - by rewrite channel_page_of_playlist.
Qed.

(** X23. [fetch_channel] declines every URL that is not a channel or
    playlist feed URL with an identifier: a URL that it handles has one of
    the two shapes, with a non-empty identifier that ends at the first
    newline, and is refreshed as the page of that identifier. *)
Theorem fetch_channel_handled (fuel : nat) (max_episodes : Z)
    (channel_url : string) (r : option (result feed_result)) :
  fetch_channel fuel channel_url max_episodes = Handled r →
  ∃ c1 c2 c3 id tail,
    c1 ≠ newline ∧ c2 ≠ newline ∧ c3 ≠ newline ∧
    id ≠ "" ∧ is_line id ∧ line_end tail ∧
    (channel_url = channel_feed_url c1 c2 c3 (id +:+ tail)
     ∧ r = refresh fuel ("https://www.youtube.com/channel/" +:+ id)
             channel_url max_episodes
     ∨ channel_url = playlist_feed_url c1 c2 c3 (id +:+ tail)
       ∧ r = refresh fuel ("https://www.youtube.com/playlist?list=" +:+ id)
               channel_url max_episodes).
Proof.
  unfold fetch_channel, channel_page_of.
  destruct (re_match_group CHANNEL_RE channel_url) as [id|] eqn:Hc.
  - apply re_match_group_inv in Hc as (tail & Hm & Hid & Hl & Ht).
    apply channel_re_inv in Hm as (c1 & c2 & c3 & H1 & H2 & H3 & ->).
    intros [= <-]. exists c1, c2, c3, id, tail. split_and!; [done..|]. by left.
  - destruct (re_match_group PLAYLIST_RE channel_url) as [id|] eqn:Hp; [|done].
    apply re_match_group_inv in Hp as (tail & Hm & Hid & Hl & Ht).
    apply playlist_re_inv in Hm as (c1 & c2 & c3 & H1 & H2 & H3 & ->).
    intros [= <-]. exists c1, c2, c3, id, tail. split_and!; [done..|]. by right.
Qed.
End fetch_channel_facts.

(** X24. A downloader that [custom_downloader] returns is a fresh one (no
    callback, no bytes counted) for the URL of the episode or for its link,
    and this URL is a watch URL with a video identifier: [https://www],
    [youtube], [com/watch?v=] joined by any two characters, then at least
    one character other than a newline. *)
Theorem custom_downloader_spec (episode : host_episode)
    (d : YoutubeCustomDownload) :
  custom_downloader episode = Some d →
  d = new_download (dl_url d) ∧
  (dl_url d = he_url episode ∨ dl_url d = he_link episode) ∧
  ∃ c1 c2 v rest,
    c1 ≠ newline ∧ c2 ≠ newline ∧ v ≠ newline ∧
    dl_url d = watch_url c1 c2 (String v rest).
Proof.
  unfold custom_downloader.
  destruct (is_watch_url (he_url episode)) eqn:Hu.
  - intros [= <-]. split; [done|]. split; [by left|].
    by apply is_watch_url_inv.
  - destruct (is_watch_url (he_link episode)) eqn:Hl; [|done].
    intros [= <-]. split; [done|]. split; [by right|].
    by apply is_watch_url_inv.
Qed.

(** X25. [custom_downloader] takes every episode whose URL is a watch URL,
    whatever its link is; when the URL of the episode is nothing of the kind
    it takes the link, if that is a watch URL.  What follows the first
    character of the video identifier is not looked at. *)
Theorem custom_downloader_watch_url (c1 c2 v : ascii) (rest other : string) :
  c1 ≠ newline → c2 ≠ newline → v ≠ newline →
  custom_downloader {| he_url := watch_url c1 c2 (String v rest);
                       he_link := other |}
  = Some (new_download (watch_url c1 c2 (String v rest)))
  ∧ (custom_downloader {| he_url := other; he_link := other |} = None →
     custom_downloader {| he_url := other;
                          he_link := watch_url c1 c2 (String v rest) |}
     = Some (new_download (watch_url c1 c2 (String v rest)))).
Proof.
  intros H1 H2 Hv. unfold custom_downloader. cbn [he_url he_link].
  rewrite is_watch_url_watch by done. split; [done|].
  by destruct (is_watch_url other).
Qed.

Lemma fetch_channel_translates_witness :
  fetch_channel (chain_backend "url") keep_url no_lookup no_lookup 2
    (channel_feed_url "." "." "." "c") 0
  = Handled (refresh (chain_backend "url") keep_url no_lookup no_lookup 2
               "https://www.youtube.com/channel/c"
               (channel_feed_url "." "." "." "c") 0).
Proof.
  refine (proj1 (fetch_channel_translates (chain_backend "url") keep_url
                   no_lookup no_lookup 2 0 "." "." "." "c" "" _ _ _ _ _ _));
    [discriminate..| |by left].
  unfold is_line. simpl. rewrite !not_elem_of_cons.
  split; [discriminate|apply not_elem_of_nil].
Defined.

Lemma fetch_channel_handled_witness :
  ∃ c1 c2 c3 id tail,
    c1 ≠ newline ∧ c2 ≠ newline ∧ c3 ≠ newline ∧
    id ≠ "" ∧ is_line id ∧ line_end tail ∧
    ("https://www.youtube.com/feeds/videos.xml?playlist_id=PL1"
     = channel_feed_url c1 c2 c3 (id +:+ tail)
     ∨ "https://www.youtube.com/feeds/videos.xml?playlist_id=PL1"
       = playlist_feed_url c1 c2 c3 (id +:+ tail)).
Proof.
  destruct (fetch_channel_handled (chain_backend "url") keep_url no_lookup
              no_lookup 2 0
              "https://www.youtube.com/feeds/videos.xml?playlist_id=PL1"
              (refresh (chain_backend "url") keep_url no_lookup no_lookup 2
                 "https://www.youtube.com/playlist?list=PL1"
                 "https://www.youtube.com/feeds/videos.xml?playlist_id=PL1" 0))
    as (c1 & c2 & c3 & id & tail & H1 & H2 & H3 & H4 & H5 & H6 & H);
    [reflexivity|].
  exists c1, c2, c3, id, tail. split_and!; [exact H1|exact H2|exact H3|exact H4|exact H5|exact H6|].
  destruct H as [[H _]|[H _]]; [left|right]; exact H.
Defined.

Lemma custom_downloader_spec_witness :
  ∃ c1 c2 v rest,
    c1 ≠ newline ∧ c2 ≠ newline ∧ v ≠ newline ∧
    "https://www.youtube.com/watch?v=abc" = watch_url c1 c2 (String v rest).
Proof.
  destruct (custom_downloader_spec
              {| he_url := "https://example.org/";
                 he_link := "https://www.youtube.com/watch?v=abc" |}
              (new_download "https://www.youtube.com/watch?v=abc"))
    as (_ & _ & H); [reflexivity|exact H].
Defined.

Lemma custom_downloader_watch_url_witness :
  custom_downloader {| he_url := "https://www.youtube.com/watch?v=abc";
                       he_link := "https://example.org/" |}
  = Some (new_download "https://www.youtube.com/watch?v=abc").
Proof.
  refine (proj1 (custom_downloader_watch_url "." "." "a" "bc"
                   "https://example.org/" _ _ _)); discriminate.
Defined.
